(** * Wave 4 iOS runtime profiling: model of [client/perf/wave4_ios_perf.py]

    The script drives a WebKit page through the auth routes, samples frame
    timestamps in the page (three JavaScript snippets) and reduces the raw
    samples with [statistics.median] / [statistics.mean] on the Python side.

    Numbers.  JavaScript numbers and Python floats are modelled as exact
    rationals ([Q]); the two places where the code rounds to a fixed number
    of decimals ([Number(x.toFixed(k))] in the page, [round(float(x), k)] in
    Python) are modelled as exact decimal rounding and return a reduced
    fraction, so that equal results are syntactically equal.  A division
    whose JavaScript result would be [Infinity] or [NaN] is a fault of the
    model ([NonFinite]); the samplers are shown never to reach it. *)

From Stdlib Require Import QArith Qround Qabs ZArith Lia Lqa Ascii String Sorted.
From stdpp Require Import gmap strings list fin_maps.

Open Scope Q_scope.

(** ** Results of fallible code *)

Inductive result (E A : Type) : Type :=
  | Ok (a : A)
  | Err (e : E).
Arguments Ok {E A} a.
Arguments Err {E A} e.

Definition result_bind {E A B} (f : A → result E B) (r : result E A) : result E B :=
  match r with
  | Ok a => f a
  | Err e => Err e
  end.

#[export] Instance result_mbind E : MBind (result E) := @result_bind E.
#[export] Instance result_mret E : MRet (result E) := @Ok E.

(** ** Exact decimal rounding *)

Definition Qltb (x y : Q) : bool := negb (Qle_bool y x).

Definition pow10 (k : nat) : positive := Pos.pow 10 (Pos.of_nat k).

Definition scale10 (k : nat) : positive :=
  match k with
  | O => 1%positive
  | S _ => pow10 k
  end.

(** [n / 10^k] with [n] the integer nearest to [x * 10^k], the larger one
    on a tie; [x] is non-negative here. *)
Definition nearest_up (x : Q) (k : nat) : Q :=
  Qred (Qfloor (x * inject_Z (Zpos (scale10 k)) + (1 # 2)) # scale10 k).

(** [Number(x.toFixed(k))]: ECMAScript rounds the magnitude and restores
    the sign. *)
Definition toFixed (x : Q) (k : nat) : Q :=
  if Qltb x 0 then - nearest_up (- x) k else nearest_up x k.

(** Round half to even, as Python's [round] does on the exact value. *)
Definition round_half_even (y : Q) : Z :=
  let fl := Qfloor y in
  match Qcompare (y - inject_Z fl) (1 # 2) with
  | Lt => fl
  | Gt => (fl + 1)%Z
  | Eq => if Z.even fl then fl else (fl + 1)%Z
  end.

(** [round(x, places)] on a finite float; a negative [places] rounds to
    tens, hundreds, ... *)
Definition py_round (x : Q) (places : Z) : Q :=
  match places with
  | Zneg p =>
      let s := inject_Z (Zpos (Pos.pow 10 p)) in
      Qred (inject_Z (round_half_even (x / s)) * s)
  | _ =>
      let s := scale10 (Z.to_nat places) in
      Qred (round_half_even (x * inject_Z (Zpos s)) # s)
  end.

(** ** In-page instrumentation *)

Inductive js_fault : Type :=
  | NonFinite           (* a division produced Infinity or NaN *)
  | UndefinedReceiver.  (* a method was called on [undefined] *)

(** [a / b] on finite numbers; finite exactly when [b] is not zero. *)
Definition js_div (a b : Q) : result js_fault Q :=
  if Qeq_bool b 0 then Err NonFinite else Ok (a / b).

(** [arr[i]] followed by a method call: [undefined] out of range. *)
Definition js_index (arr : list Q) (i : Z) : result js_fault Q :=
  if (i <? 0)%Z then Err UndefinedReceiver
  else match arr !! Z.to_nat i with
       | Some v => Ok v
       | None => Err UndefinedReceiver
       end.

(** [for (let i = 1; i < stamps.length; i += 1)
       frameDeltas.push(stamps[i] - stamps[i - 1])] *)
Fixpoint frame_deltas (stamps : list Q) : list Q :=
  match stamps with
  | a :: rest =>
      match rest with
      | b :: _ => (b - a) :: frame_deltas rest
      | [] => []
      end
  | [] => []
  end.

(** [frameDeltas.reduce((sum, v) => sum + v, 0)] *)
Definition sum_deltas (frameDeltas : list Q) : Q :=
  fold_left Qplus frameDeltas 0.

(** [[...frameDeltas].sort((a, b) => a - b)]: ascending and stable. *)
Fixpoint js_insert (x : Q) (sorted : list Q) : list Q :=
  match sorted with
  | [] => [x]
  | h :: t => if Qltb h x then h :: js_insert x t else x :: h :: t
  end.

Fixpoint js_sort (l : list Q) : list Q :=
  match l with
  | [] => []
  | x :: t => js_insert x (js_sort t)
  end.

(** [Math.max(0, Math.ceil(sorted.length * 0.95) - 1)], or 0 on an empty
    array.  The double nearest to 0.95 lies below 0.95 by less than 1e-16,
    so for any array that fits in memory the rounded product has the same
    ceiling as the exact one, which is what is computed here. *)
Definition p95Idx (len : nat) : Z :=
  if (0 <? len)%nat
  then Z.max 0 (Qceiling (inject_Z (Z.of_nat len) * 0.95) - 1)
  else 0%Z.

(** The const [p95FrameMs] before it is rounded for the report. *)
Definition p95_raw (frameDeltas : list Q) : result js_fault Q :=
  let sorted := js_sort frameDeltas in
  if (0 <? length sorted)%nat
  then js_index sorted (p95Idx (length sorted))
  else Ok 0.

(** [frameDeltas.filter((d) => d > 24).length] *)
Definition dropped_count (frameDeltas : list Q) : nat :=
  length (filter (λ d, Qltb 24 d = true) frameDeltas).

Definition dropped_raw (frameDeltas : list Q) : result js_fault Q :=
  if (0 <? length frameDeltas)%nat
  then js_div (inject_Z (Z.of_nat (dropped_count frameDeltas)))
              (inject_Z (Z.of_nat (length frameDeltas)))
  else Ok 0.

Definition fps_raw (frameDeltas : list Q) : result js_fault Q :=
  let duration := sum_deltas frameDeltas in
  if Qltb 0 duration
  then q ← js_div (inject_Z (Z.of_nat (length frameDeltas))) duration;
       Ok (q * 1000)
  else Ok 0.

Record FrameRateSample : Type := {
  avgFps : Q;
  p95FrameMs : Q;
  droppedFrameRatio : Q;
  totalFrames : nat;
  sampleDurationMs : Q
}.

(** The reduction of the collected stamps that both samplers perform
    (lines 86-106 of [FPS_SAMPLE_JS], 166-190 of [TRANSITION_FPS_JS]). *)
Definition frame_stats (stamps : list Q) : result js_fault FrameRateSample :=
  let frameDeltas := frame_deltas stamps in
  let duration := sum_deltas frameDeltas in
  fps ← fps_raw frameDeltas;
  p95 ← p95_raw frameDeltas;
  dropped ← dropped_raw frameDeltas;
  Ok {| avgFps := toFixed fps 3;
        p95FrameMs := toFixed p95 3;
        droppedFrameRatio := toFixed dropped 4;
        totalFrames := length frameDeltas;
        sampleDurationMs := toFixed duration 3 |}.

(** [FPS_SAMPLE_JS]: [step] runs once per animation frame with that
    frame's timestamp; [frames] are the timestamps the page delivers.
    [None]: the promise is still pending when [frames] is exhausted. *)
Fixpoint fps_step (durationMs : Q) (start : option Q) (stamps frames : list Q)
    : option (result js_fault FrameRateSample) :=
  match frames with
  | [] => None
  | ts :: later =>
      let start' := match start with None => ts | Some s => s end in
      let stamps' := stamps ++ [ts] in
      if Qle_bool durationMs (ts - start')
      then Some (frame_stats stamps')
      else fps_step durationMs (Some start') stamps' later
  end.

Definition FPS_SAMPLE_JS (durationMs : Q) (frames : list Q)
    : option (result js_fault FrameRateSample) :=
  fps_step durationMs None [] frames.

(** *** Transition sampler *)

Record css_style : Type := { visibility : string; display : string }.

(** What [isVisible] reads from an element: [getComputedStyle(el)] (which
    can be null) and the number of client rectangles. *)
Record element : Type := {
  el_name : string;
  computedStyle : option css_style;
  clientRects : nat
}.

Definition isVisible (el : option element) : bool :=
  match el with
  | None => false
  | Some e =>
      match computedStyle e with
      | None => false
      | Some style =>
          if String.eqb (visibility style) "hidden"
             || String.eqb (display style) "none"
          then false
          else (0 <? clientRects e)%nat
      end
  end.

(** [candidates.find(isVisible) || candidates[0] || null] *)
Definition transition_target (candidates : list element) : option element :=
  match List.find (λ e, isVisible (Some e)) candidates with
  | Some e => Some e
  | None =>
      match candidates with
      | c :: _ => Some c
      | [] => None
      end
  end.

(** One turn of the polling loop: the clock read by the loop condition,
    the pathname read by the body, and the clock read for [navEnd] when
    the pathname is the expected one. *)
Record poll : Type := {
  poll_clock : Q;
  poll_path : string;
  poll_clock_hit : Q
}.

(** [while (performance.now() < navDeadline) { if (pathname ===
    expectedPath) { navEnd = performance.now(); break }; await sleep(16) }].
    [Some navEnd] when the loop is left, [None] when the supplied polls end
    while it is still running. *)
Fixpoint wait_for_path (navDeadline : Q) (expectedPath : string)
    (polls : list poll) : option (option Q) :=
  match polls with
  | [] => None
  | p :: later =>
      if Qltb (poll_clock p) navDeadline
      then if String.eqb (poll_path p) expectedPath
           then Some (Some (poll_clock_hit p))
           else wait_for_path navDeadline expectedPath later
      else Some None
  end.

(** What the page shows to one run of [TRANSITION_FPS_JS]. *)
Record page_trace : Type := {
  querySelectorAll : string → list element;
  startPath : string;        (* pathname before the click *)
  navStart : Q;              (* performance.now() before the click *)
  polls : list poll;
  finalPath : string;        (* pathname when the result is built *)
  frameStamps : list Q       (* timestamps pushed by [frameStep] *)
}.

Record transition_args : Type := {
  selector : string;
  expectedPath : string;
  sampleMs : Q;
  timeoutMs : Q
}.

Record TransitionMeasurement : Type := {
  m_from : string;
  m_to : string;
  m_expectedTo : string;
  navigationDurationMs : option Q;
  reachedExpectedPath : bool;
  m_sample : FrameRateSample
}.

Inductive transition_result : Type :=
  | TransitionError (message : string)
  | TransitionDone (clicked : element) (m : TransitionMeasurement).

Definition no_target_message (sel : string) : string :=
  ("No transition target found for selector: " ++ sel)%string.

Definition TRANSITION_FPS_JS (args : transition_args) (page : page_trace)
    : option (result js_fault transition_result) :=
  let candidates := querySelectorAll page (selector args) in
  match transition_target candidates with
  | None => Some (Ok (TransitionError (no_target_message (selector args))))
  | Some target =>
      let navDeadline := navStart page + timeoutMs args in
      match wait_for_path navDeadline (expectedPath args) (polls page) with
      | None => None
      | Some navEnd =>
          Some (sample ← frame_stats (frameStamps page);
                Ok (TransitionDone target
                  {| m_from := startPath page;
                     m_to := finalPath page;
                     m_expectedTo := expectedPath args;
                     navigationDurationMs :=
                       match navEnd with
                       | Some t => Some (toFixed (t - navStart page) 3)
                       | None => None
                       end;
                     reachedExpectedPath :=
                       String.eqb (finalPath page) (expectedPath args);
                     m_sample := sample |}))
      end
  end.

(** ** Python side *)

(** Values that [page.evaluate] hands over: JSON scalars. *)
Inductive pyval : Type :=
  | PyNone
  | PyBool (b : bool)
  | PyNum (q : Q)
  | PyStr (s : string).

Inductive pyexn : Type :=
  | TypeError
  | ValueError
  | StatisticsError
  | KeyError
  | TimeoutError
  | PlaywrightError          (* an exception thrown inside the page *)
  | RuntimeError (message : pyval).

Definition is_not_None (v : pyval) : bool :=
  match v with
  | PyNone => false
  | _ => true
  end.

Definition py_truthy (v : pyval) : bool :=
  match v with
  | PyNone => false
  | PyBool b => b
  | PyNum q => negb (Qeq_bool q 0)
  | PyStr s => negb (String.eqb s EmptyString)
  end.

(** [d.get(key)] *)
Definition dict_get (d : gmap string pyval) (key : string) : pyval :=
  default PyNone (d !! key).

(** Truth value of [None] or a dict: an empty dict is false. *)
Definition dict_truthy (d : option (gmap string pyval)) : bool :=
  match d with
  | None => false
  | Some m => negb (Nat.eqb (size m) 0)
  end.

(** The number a value stands for in arithmetic; [bool] is an [int]. *)
Definition as_number (v : pyval) : option Q :=
  match v with
  | PyBool b => Some (if b then 1 else 0)
  | PyNum q => Some q
  | _ => None
  end.

(** [a < b] *)
Definition py_lt (a b : pyval) : result pyexn bool :=
  match a, b with
  | PyStr s, PyStr t => Ok (String.ltb s t)
  | _, _ =>
      match as_number a, as_number b with
      | Some x, Some y => Ok (Qltb x y)
      | _, _ => Err TypeError
      end
  end.

(** [a + b] *)
Definition py_add (a b : pyval) : result pyexn pyval :=
  match a, b with
  | PyStr s, PyStr t => Ok (PyStr (s ++ t))
  | _, _ =>
      match as_number a, as_number b with
      | Some x, Some y => Ok (PyNum (x + y))
      | _, _ => Err TypeError
      end
  end.

(** [a / 2] *)
Definition py_halve (a : pyval) : result pyexn pyval :=
  match as_number a with
  | Some x => Ok (PyNum (x / 2))
  | None => Err TypeError
  end.

(** [sorted(data)]: stable, comparing with [<] only; any comparison that
    raises aborts the sort. *)
Fixpoint py_insert (x : pyval) (sorted : list pyval)
    : result pyexn (list pyval) :=
  match sorted with
  | [] => Ok [x]
  | h :: t =>
      lt ← py_lt h x;
      if lt : bool
      then t' ← py_insert x t; Ok (h :: t')
      else Ok (x :: h :: t)
  end.

Fixpoint py_sorted (data : list pyval) : result pyexn (list pyval) :=
  match data with
  | [] => Ok []
  | x :: t => s ← py_sorted t; py_insert x s
  end.

(** [statistics.median] *)
Definition median (data : list pyval) : result pyexn pyval :=
  data ← py_sorted data;
  let n := length data in
  if Nat.eqb n 0 then Err StatisticsError
  else if Nat.eqb (n mod 2) 1
  then Ok (nth (n / 2) data PyNone)
  else
    let i := (n / 2)%nat in
    s ← py_add (nth (i - 1) data PyNone) (nth i data PyNone);
    py_halve s.

Fixpoint py_sum (data : list pyval) : result pyexn Q :=
  match data with
  | [] => Ok 0
  | v :: t =>
      match as_number v with
      | Some x => s ← py_sum t; Ok (x + s)
      | None => Err TypeError
      end
  end.

(** [statistics.mean] *)
Definition mean (data : list pyval) : result pyexn pyval :=
  if Nat.eqb (length data) 0 then Err StatisticsError
  else total ← py_sum data;
       Ok (PyNum (total / inject_Z (Z.of_nat (length data)))).

(** Python floats, with the values that are not finite. *)
Inductive pyfloat : Type :=
  | FNaN
  | FInf (negative : bool)
  | FFin (q : Q).

(** The arguments [safe_round] is annotated for: [float | None], where an
    [int] is accepted wherever a [float] is. *)
Inductive pynumber : Type :=
  | PInt (z : Z)
  | PFloat (f : pyfloat).

Definition isinstance_float (v : pynumber) : bool :=
  match v with
  | PFloat _ => true
  | PInt _ => false
  end.

Definition math_isnan (v : pynumber) : bool :=
  match v with
  | PFloat FNaN => true
  | _ => false
  end.

(** [float(value)] *)
Definition py_float (v : pynumber) : pyfloat :=
  match v with
  | PInt z => FFin (inject_Z z)
  | PFloat f => f
  end.

(** [round(x, places)] on a float: infinities and NaN are returned as
    they are. *)
Definition round_float (x : pyfloat) (places : Z) : pyfloat :=
  match x with
  | FFin q => FFin (py_round q places)
  | other => other
  end.

Definition safe_round (value : option pynumber) (places : Z) : option pyfloat :=
  match value with
  | None => None
  | Some v =>
      if isinstance_float v && math_isnan v then None
      else Some (round_float (py_float v) places)
  end.



(** [safe_round] applied to a value taken from the captured data.  A
    string is outside the annotated domain: [float(str)] is not modelled
    and is reported as [ValueError]. *)
Definition safe_round_value (v : pyval) (places : Z)
    : result pyexn (option pyfloat) :=
  match v with
  | PyNone => Ok (safe_round None places)
  | PyBool b => Ok (safe_round (Some (PInt (if b then 1 else 0))) places)
  | PyNum q => Ok (safe_round (Some (PFloat (FFin q))) places)
  | PyStr _ => Err ValueError
  end.

(** [safe_round(median(vals), places) if vals else None] *)
Definition median_or_None (vals : list pyval) (places : Z)
    : result pyexn (option pyfloat) :=
  match vals with
  | [] => Ok None
  | _ => m ← median vals; safe_round_value m places
  end.

(** [safe_round(mean(vals), places) if vals else None] *)
Definition mean_or_None (vals : list pyval) (places : Z)
    : result pyexn (option pyfloat) :=
  match vals with
  | [] => Ok None
  | _ => m ← mean vals; safe_round_value m places
  end.

(** *** Startup aggregation *)

Record startup_run : Type := {
  run : nat;
  route : string;
  navigation : option (gmap string pyval);   (* run["metrics"]["navigation"] *)
  paint : option (gmap string pyval);        (* run["metrics"]["paint"] *)
  startupFps : option (gmap string pyval)    (* run["metrics"]["startupFps"] *)
}.

Definition nav_fields : list string :=
  ["responseStart"; "responseEnd"; "domInteractive";
   "domContentLoadedEventEnd"; "domComplete"; "loadEventEnd"]%string.
Definition paint_fields : list string :=
  ["first-paint"; "first-contentful-paint"]%string.
Definition fps_fields : list string :=
  ["avgFps"; "p95FrameMs"; "droppedFrameRatio"]%string.

(** [d.get(key)] on a value that is a dict or [None]; only used behind a
    truth test of [d]. *)
Definition opt_dict_get (d : option (gmap string pyval)) (key : string) : pyval :=
  match d with
  | Some m => dict_get m key
  | None => PyNone
  end.

(** [[nav[field] for run in startup_runs if nav and field in nav]] *)
Definition nav_vals (field : string) (startup_runs : list startup_run)
    : list pyval :=
  omap (λ r, if dict_truthy (navigation r)
             then navigation r ≫= (λ nav, nav !! field)
             else None) startup_runs.

(** [[paint.get(field) for run in startup_runs
      if paint and paint.get(field) is not None]] *)
Definition paint_vals (field : string) (startup_runs : list startup_run)
    : list pyval :=
  omap (λ r, if dict_truthy (paint r)
                && is_not_None (opt_dict_get (paint r) field)
             then Some (opt_dict_get (paint r) field)
             else None) startup_runs.

(** [[fps[field] for run in startup_runs
      if fps and fps.get(field) is not None]] *)
Definition fps_vals (field : string) (startup_runs : list startup_run)
    : list pyval :=
  omap (λ r, if dict_truthy (startupFps r)
                && is_not_None (opt_dict_get (startupFps r) field)
             then Some (opt_dict_get (startupFps r) field)
             else None) startup_runs.

(** [for field in fields: summary[field] = stat(field)] *)
Fixpoint summarize (fields : list string)
    (stat : string → result pyexn (option pyfloat))
    (summary : gmap string (option pyfloat))
    : result pyexn (gmap string (option pyfloat)) :=
  match fields with
  | [] => Ok summary
  | field :: rest =>
      v ← stat field;
      summarize rest stat (<[field := v]> summary)
  end.

Record startup_summary : Type := {
  navigationMsMedian : gmap string (option pyfloat);
  paintMsMedian : gmap string (option pyfloat);
  startupFpsMedian : gmap string (option pyfloat)
}.

Definition aggregate_startup (startup_runs : list startup_run)
    : result pyexn startup_summary :=
  nav_summary ←
    summarize nav_fields
      (λ field, median_or_None (nav_vals field startup_runs) 3) ∅;
  paint_summary ←
    summarize paint_fields
      (λ field, median_or_None (paint_vals field startup_runs) 3) ∅;
  fps_summary ←
    summarize fps_fields
      (λ field, median_or_None (fps_vals field startup_runs)
                  (if String.eqb field "droppedFrameRatio" then 4 else 3)) ∅;
  Ok {| navigationMsMedian := nav_summary;
        paintMsMedian := paint_summary;
        startupFpsMedian := fps_summary |}.

(** *** Transition aggregation *)

Record transition_entry : Type := {
  t_from : string;
  t_to : string;
  t_selector : string;
  t_metrics : gmap string pyval
}.

Record round_entry : Type := {
  round : nat;
  transitions : list transition_entry
}.

(** [f'{transition["from"]}->{transition["to"]}'] *)
Definition edge_key (from to : string) : string :=
  (from ++ "->" ++ to)%string.

(** [by_edge.setdefault(edge_key, []).append(metrics)] on a dict kept in
    insertion order. *)
Fixpoint setdefault_append (key : string) (metrics : gmap string pyval)
    (by_edge : list (string * list (gmap string pyval)))
    : list (string * list (gmap string pyval)) :=
  match by_edge with
  | [] => [(key, [metrics])]
  | (k, l) :: rest =>
      if String.eqb k key
      then (k, l ++ [metrics]) :: rest
      else (k, l) :: setdefault_append key metrics rest
  end.

Definition all_transitions (transition_rounds : list round_entry)
    : list transition_entry :=
  flat_map transitions transition_rounds.

Definition group_by_edge (transition_rounds : list round_entry)
    : list (string * list (gmap string pyval)) :=
  fold_left
    (λ by_edge t,
       setdefault_append (edge_key (t_from t) (t_to t)) (t_metrics t) by_edge)
    (all_transitions transition_rounds) [].

(** [[m[field] for m in metrics_list if m.get(field) is not None]] *)
Definition metric_vals (field : string)
    (metrics_list : list (gmap string pyval)) : list pyval :=
  omap (λ m, if is_not_None (dict_get m field)
             then Some (dict_get m field) else None) metrics_list.

(** [[1.0 if m.get("reachedExpectedPath") else 0.0 for m in metrics_list]] *)
Definition reach_flags (metrics_list : list (gmap string pyval)) : list pyval :=
  map (λ m, if py_truthy (dict_get m "reachedExpectedPath")
            then PyNum 1 else PyNum 0) metrics_list.

Record edge_summary : Type := {
  avgFpsMean : option pyfloat;
  avgFpsMedian : option pyfloat;
  p95FrameMsMedian : option pyfloat;
  droppedFrameRatioMedian : option pyfloat;
  navigationDurationMsMedian : option pyfloat;
  expectedPathReachRate : option pyfloat;
  samples : nat
}.

Definition summarize_edge (metrics_list : list (gmap string pyval))
    : result pyexn edge_summary :=
  let fps_v := metric_vals "avgFps" metrics_list in
  let p95_v := metric_vals "p95FrameMs" metrics_list in
  let drop_v := metric_vals "droppedFrameRatio" metrics_list in
  let nav_v := metric_vals "navigationDurationMs" metrics_list in
  reach_rate ← mean (reach_flags metrics_list);
  fps_mean ← mean_or_None fps_v 3;
  fps_median ← median_or_None fps_v 3;
  p95_median ← median_or_None p95_v 3;
  drop_median ← median_or_None drop_v 4;
  nav_median ← median_or_None nav_v 3;
  reach ← safe_round_value reach_rate 4;
  Ok {| avgFpsMean := fps_mean;
        avgFpsMedian := fps_median;
        p95FrameMsMedian := p95_median;
        droppedFrameRatioMedian := drop_median;
        navigationDurationMsMedian := nav_median;
        expectedPathReachRate := reach;
        samples := length metrics_list |}.

(** [for edge, metrics_list in by_edge.items(): summary[edge] = ...] *)
Fixpoint summarize_edges (by_edge : list (string * list (gmap string pyval)))
    : result pyexn (list (string * edge_summary)) :=
  match by_edge with
  | [] => Ok []
  | (edge, metrics_list) :: rest =>
      s ← summarize_edge metrics_list;
      later ← summarize_edges rest;
      Ok ((edge, s) :: later)
  end.

Definition aggregate_transitions (transition_rounds : list round_entry)
    : result pyexn (list (string * edge_summary)) :=
  summarize_edges (group_by_edge transition_rounds).

(** [summary.get(edge)] on the insertion-ordered dict. *)
Fixpoint summary_lookup {A} (edge : string) (summary : list (string * A))
    : option A :=
  match summary with
  | [] => None
  | (k, v) :: rest =>
      if String.eqb k edge then Some v else summary_lookup edge rest
  end.

(** *** Transition collection *)

Definition dquote : string := String "034"%char EmptyString.

(** [a[href="<path>"]] *)
Definition link_to (path : string) : string :=
  ("a[href=" ++ dquote ++ path ++ dquote ++ "]")%string.

Definition AUTH_ENTRY_ROUTE : string := "/signin".

Definition AUTH_ROUTE_MARKERS : gmap string string :=
  <["/signin" := link_to "/signup"]>
  (<["/signup" := link_to "/signin"]>
  (<["/forgot-password" := link_to "/signin"]> ∅)).

Definition TRANSITIONS : list (string * string * string) :=
  [("/signin", "/signup", link_to "/signup");
   ("/signup", "/signin", link_to "/signin");
   ("/signin", "/forgot-password", link_to "/forgot-password");
   ("/forgot-password", "/signin", link_to "/signin")]%string.

(** The object returned by [page.evaluate(TRANSITION_FPS_JS, ...)] as the
    Python dict Playwright builds from it. *)
Definition opt_num (o : option Q) : pyval :=
  match o with
  | Some q => PyNum q
  | None => PyNone
  end.

Definition nat_num (n : nat) : pyval := PyNum (inject_Z (Z.of_nat n)).

Definition result_dict (r : transition_result) : gmap string pyval :=
  match r with
  | TransitionError message => {[ "error"%string := PyStr message ]}
  | TransitionDone _ m =>
      <["from" := PyStr (m_from m)]>
      (<["to" := PyStr (m_to m)]>
      (<["expectedTo" := PyStr (m_expectedTo m)]>
      (<["navigationDurationMs" := opt_num (navigationDurationMs m)]>
      (<["reachedExpectedPath" := PyBool (reachedExpectedPath m)]>
      (<["avgFps" := PyNum (avgFps (m_sample m))]>
      (<["p95FrameMs" := PyNum (p95FrameMs (m_sample m))]>
      (<["droppedFrameRatio" := PyNum (droppedFrameRatio (m_sample m))]>
      (<["totalFrames" := nat_num (totalFrames (m_sample m))]>
      (<["sampleDurationMs" := PyNum (sampleDurationMs (m_sample m))]>
       ∅)))))))))
  end.

(** Whether the two waits of [wait_for_route_ready] succeed within their
    15 s bound. *)
Record readiness : Type := {
  path_matches : bool;
  marker_visible : string → bool
}.

Definition wait_for_route_ready (route : string) (ready : readiness)
    : result pyexn unit :=
  if path_matches ready
  then match AUTH_ROUTE_MARKERS !! route with
       | None => Err KeyError
       | Some marker =>
           if marker_visible ready marker then Ok tt else Err TimeoutError
       end
  else Err TimeoutError.

(** What the browser shows while one edge is exercised. *)
Record edge_world : Type := {
  path_before : string;       (* pathname before the edge is taken *)
  source_ready : readiness;   (* after the explicit goto, when one is needed *)
  page : page_trace;
  dest_ready : readiness
}.

Record browser : Type := {
  entry_ready : nat → readiness;       (* per round *)
  world : nat → nat → edge_world       (* per round and edge position *)
}.

(** The body of the inner loop for one edge.  [None]: [page.evaluate] is
    still waiting for the page. *)
Definition take_edge (ew : edge_world) (sample_ms timeout_ms : Q)
    (edge : string * string * string)
    : option (result pyexn transition_entry) :=
  let '(source_route, expected_route, sel) := edge in
  match (if String.eqb (path_before ew) source_route then Ok tt
         else wait_for_route_ready source_route (source_ready ew)) with
  | Err e => Some (Err e)
  | Ok _ =>
      match TRANSITION_FPS_JS
              {| selector := sel; expectedPath := expected_route;
                 sampleMs := sample_ms; timeoutMs := timeout_ms |}
              (page ew) with
      | None => None
      | Some (Err _) => Some (Err PlaywrightError)
      | Some (Ok r) =>
          let result := result_dict r in
          if py_truthy (dict_get result "error")
          then Some (Err (RuntimeError (dict_get result "error")))
          else
            match wait_for_route_ready expected_route (dest_ready ew) with
            | Err e => Some (Err e)
            | Ok _ =>
                Some (Ok {| t_from := source_route;
                            t_to := expected_route;
                            t_selector := sel;
                            t_metrics := result |})
            end
      end
  end.

(** The inner loop [for source_route, expected_route, selector in
    TRANSITIONS]: the first edge that raises ends the walk. *)
Fixpoint walk_edges (w : nat → edge_world) (sample_ms timeout_ms : Q)
    (edges : list (string * string * string)) (position : nat)
    : option (result pyexn (list transition_entry)) :=
  match edges with
  | [] => Some (Ok [])
  | edge :: rest =>
      match take_edge (w position) sample_ms timeout_ms edge with
      | None => None
      | Some (Err e) => Some (Err e)
      | Some (Ok entry) =>
          match walk_edges w sample_ms timeout_ms rest (S position) with
          | Some (Ok later) => Some (Ok (entry :: later))
          | other => other
          end
      end
  end.

(** The outer loop, for rounds [first], [first + 1], ... ([count] of them). *)
Fixpoint collect_rounds (b : browser) (sample_ms timeout_ms : Q)
    (first count : nat) : option (result pyexn (list round_entry)) :=
  match count with
  | O => Some (Ok [])
  | S count' =>
      match wait_for_route_ready AUTH_ENTRY_ROUTE (entry_ready b first) with
      | Err e => Some (Err e)
      | Ok _ =>
          match walk_edges (world b first) sample_ms timeout_ms TRANSITIONS 0 with
          | None => None
          | Some (Err e) => Some (Err e)
          | Some (Ok entries) =>
              match collect_rounds b sample_ms timeout_ms (S first) count' with
              | Some (Ok later) =>
                  Some (Ok ({| round := first; transitions := entries |} :: later))
              | other => other
              end
          end
      end
  end.

Definition collect_transition_rounds (b : browser) (transition_rounds : nat)
    (transition_fps_sample_ms transition_timeout_ms : Q)
    : option (result pyexn (list round_entry)) :=
  collect_rounds b transition_fps_sample_ms transition_timeout_ms
    1 transition_rounds.


(** ** Vocabulary of the statements *)


(** Last timestamp minus first. *)
Definition total_duration (stamps : list Q) : Q :=
  List.last stamps 0 - hd 0 stamps.

(** Number of deltas strictly above [threshold]. *)
Fixpoint count_over (threshold : Q) (deltas : list Q) : nat :=
  match deltas with
  | [] => 0
  | d :: rest =>
      ((if Qltb threshold d then 1 else 0) + count_over threshold rest)%nat
  end.

(** [max(0, ceil(n * 0.95) - 1)] as a position in a list. *)
Definition percentile_index (n : nat) : nat :=
  Z.to_nat (Z.max 0 (Qceiling (inject_Z (Z.of_nat n) * (95 # 100)) - 1)).

(** The average frame rate before rounding. *)
Definition fps_value (deltas : list Q) : Q :=
  if Qltb 0 (sum_deltas deltas)
  then inject_Z (Z.of_nat (length deltas)) / sum_deltas deltas * 1000
  else 0.

(** The sample returned for a window without inter-frame deltas. *)
Definition empty_sample : FrameRateSample :=
  {| avgFps := 0; p95FrameMs := 0; droppedFrameRatio := 0;
     totalFrames := 0; sampleDurationMs := 0 |}.

(** A link that matches its selector but is not rendered, and a page whose
    only match for that selector is this link. *)
Definition hidden_link : element :=
  {| el_name := "signup-link";
     computedStyle := Some {| visibility := "visible"; display := "none" |};
     clientRects := 0 |}.

Definition hidden_link_page : page_trace :=
  {| querySelectorAll := λ _, [hidden_link];
     startPath := "/signin";
     navStart := 100;
     polls := [ {| poll_clock := 101; poll_path := "/signin"; poll_clock_hit := 101 |};
                {| poll_clock := 117; poll_path := "/signup"; poll_clock_hit := 118 |} ];
     finalPath := "/signup";
     frameStamps := [100; 116; 132; 148] |}.

Definition signup_args : transition_args :=
  {| selector := link_to "/signup"; expectedPath := "/signup";
     sampleMs := 1800; timeoutMs := 5000 |}.

(** A rendered link, and a page that leaves [/signin] only after the
    5 s deadline of the polling loop. *)
Definition signup_link : element :=
  {| el_name := "signup-link";
     computedStyle := Some {| visibility := "visible"; display := "inline" |};
     clientRects := 1 |}.

Definition late_page : page_trace :=
  {| querySelectorAll := λ _, [signup_link];
     startPath := "/signin";
     navStart := 100;
     polls := [ {| poll_clock := 101; poll_path := "/signin"; poll_clock_hit := 101 |};
                {| poll_clock := 2600; poll_path := "/signin"; poll_clock_hit := 2600 |};
                {| poll_clock := 5101; poll_path := "/signin"; poll_clock_hit := 5101 |} ];
     finalPath := "/signup";
     frameStamps := [100; 116; 132; 148] |}.

(** Startup runs that differ only in [domComplete] and [first-paint]. *)
Definition navigation_entry (domComplete : pyval) : gmap string pyval :=
  <["responseStart" := PyNum 12]>
  (<["responseEnd" := PyNum 20]>
  (<["domInteractive" := PyNum 80]>
  (<["domContentLoadedEventEnd" := PyNum 85]>
  (<["domComplete" := domComplete]>
  (<["loadEventEnd" := PyNum 210]> ∅))))).

Definition paint_entry (first_paint : pyval) : gmap string pyval :=
  <["first-paint" := first_paint]>
  (<["first-contentful-paint" := PyNum 95]> ∅).

Definition fps_entry : gmap string pyval :=
  <["avgFps" := PyNum 60]>
  (<["p95FrameMs" := PyNum 17]>
  (<["droppedFrameRatio" := PyNum 0]>
  (<["totalFrames" := PyNum 180]>
  (<["sampleDurationMs" := PyNum 3000]> ∅)))).

Definition startup_run_with (id : nat) (domComplete first_paint : pyval)
    : startup_run :=
  {| run := id;
     route := "http://127.0.0.1:5173/signin";
     navigation := Some (navigation_entry domComplete);
     paint := Some (paint_entry first_paint);
     startupFps := Some fps_entry |}.

(** Three runs, the second with a null [domComplete]. *)
Definition runs_null_domComplete : list startup_run :=
  [startup_run_with 1 (PyNum 100) (PyNum 90);
   startup_run_with 2 PyNone (PyNum 92);
   startup_run_with 3 (PyNum 200) (PyNum 94)].

(** Three runs, the second with a null [first-paint]. *)
Definition runs_null_first_paint : list startup_run :=
  [startup_run_with 1 (PyNum 100) (PyNum 90);
   startup_run_with 2 (PyNum 150) PyNone;
   startup_run_with 3 (PyNum 200) (PyNum 94)].

(** Measurements of the edge [/signin -> /signup] as Playwright returns
    them, and rounds made of them. *)
Definition measurement (reached : bool) (fps : Q) (nav : pyval)
    : gmap string pyval :=
  <["from" := PyStr "/signin"]>
  (<["to" := PyStr (if reached then "/signup" else "/signin")]>
  (<["expectedTo" := PyStr "/signup"]>
  (<["navigationDurationMs" := nav]>
  (<["reachedExpectedPath" := PyBool reached]>
  (<["avgFps" := PyNum fps]>
  (<["p95FrameMs" := PyNum 17]>
  (<["droppedFrameRatio" := PyNum 0]>
  (<["totalFrames" := PyNum 108]>
  (<["sampleDurationMs" := PyNum 1800]> ∅))))))))).

Definition signup_round (id : nat) (reached : bool) (fps : Q) (nav : pyval)
    : round_entry :=
  {| round := id;
     transitions :=
       [ {| t_from := "/signin"; t_to := "/signup";
            t_selector := link_to "/signup";
            t_metrics := measurement reached fps nav |} ] |}.

(** One of three measurements reached the expected path. *)
Definition rounds_one_of_three : list round_entry :=
  [signup_round 1 true 60 (PyNum 120);
   signup_round 2 false 58 PyNone;
   signup_round 3 false 59 PyNone].


(** Two measurements of [/signin -> /signup] and one of
    [/signup -> /signin]. *)
Definition rounds_two_edges : list round_entry :=
  [ {| round := 1;
       transitions :=
         [ {| t_from := "/signin"; t_to := "/signup";
              t_selector := link_to "/signup";
              t_metrics := measurement true 60 (PyNum 120) |};
           {| t_from := "/signup"; t_to := "/signin";
              t_selector := link_to "/signin";
              t_metrics := measurement true 57 (PyNum 140) |} ] |};
    signup_round 2 true 58 (PyNum 130) ].

(** The keys under which the configured edges are summarised. *)
Definition configured_edge_keys : list string :=
  map (λ edge, edge_key edge.1.1 edge.1.2) TRANSITIONS.

(** A browser in which every readiness wait succeeds but the page stays on
    [/signin] while each edge is sampled. *)
Definition always_ready : readiness :=
  {| path_matches := true; marker_visible := λ _, true |}.

Definition stalled_page : page_trace :=
  {| querySelectorAll := λ _, [signup_link];
     startPath := "/signin";
     navStart := 100;
     polls := [ {| poll_clock := 101; poll_path := "/signin"; poll_clock_hit := 102 |};
                {| poll_clock := 5101; poll_path := "/signin"; poll_clock_hit := 5101 |} ];
     finalPath := "/signin";
     frameStamps := [100; 116; 132; 148] |}.

Definition stalled_browser : browser :=
  {| entry_ready := λ _, always_ready;
     world := λ _ _,
       {| path_before := "/signin";
          source_ready := always_ready;
          page := stalled_page;
          dest_ready := always_ready |} |}.


(** The polls the loop performs: those whose loop condition found the clock
    before the deadline, up to the first one that did not. *)
Fixpoint performed_polls (navDeadline : Q) (polls : list poll) : list poll :=
  match polls with
  | [] => []
  | p :: later =>
      if Qltb (poll_clock p) navDeadline
      then p :: performed_polls navDeadline later
      else []
  end.

(** The first performed poll that saw the expected path. *)
Definition first_hit (expected : string) (performed : list poll) : option poll :=
  List.find (λ p, String.eqb (poll_path p) expected) performed.

(** *** Statistics on numbers, and the summary of a group as the
    specification words it *)

Definition q_sum (l : list Q) : Q := fold_right Qplus 0 l.

Definition q_mean (l : list Q) : Q :=
  q_sum l / inject_Z (Z.of_nat (length l)).

(** Middle element of the sorted values, or the average of the two middle
    elements. *)
Definition q_median (l : list Q) : Q :=
  let sorted := js_sort l in
  let n := length sorted in
  if Nat.eqb (n mod 2) 1
  then nth (n / 2) sorted 0
  else (nth (n / 2 - 1) sorted 0 + nth (n / 2) sorted 0) / 2.

(** A statistic of the values rounded to [places] decimals; null when
    there is no value. *)
Definition rounded_stat (stat : list Q → Q) (places : Z) (values : list Q)
    : option pyfloat :=
  match values with
  | [] => None
  | _ => Some (FFin (py_round (stat values) places))
  end.

(** The measurements of one edge, in the order they were taken. *)
Definition edge_group (key : string) (transition_rounds : list round_entry)
    : list (gmap string pyval) :=
  map t_metrics
    (filter (λ t, edge_key (t_from t) (t_to t) = key)
            (all_transitions transition_rounds)).

(** The non-null values of a field over a group. *)
Definition field_numbers (field : string)
    (metrics_list : list (gmap string pyval)) : list Q :=
  omap (λ m, as_number (dict_get m field)) metrics_list.

(** 1 for a measurement that reached the expected path, 0 otherwise. *)
Definition reach_indicator (metrics_list : list (gmap string pyval)) : list Q :=
  map (λ m, if py_truthy (dict_get m "reachedExpectedPath") then 1 else 0)
      metrics_list.

Definition expected_edge_summary (metrics_list : list (gmap string pyval))
    : edge_summary :=
  {| avgFpsMean := rounded_stat q_mean 3 (field_numbers "avgFps" metrics_list);
     avgFpsMedian := rounded_stat q_median 3 (field_numbers "avgFps" metrics_list);
     p95FrameMsMedian :=
       rounded_stat q_median 3 (field_numbers "p95FrameMs" metrics_list);
     droppedFrameRatioMedian :=
       rounded_stat q_median 4 (field_numbers "droppedFrameRatio" metrics_list);
     navigationDurationMsMedian :=
       rounded_stat q_median 3 (field_numbers "navigationDurationMs" metrics_list);
     expectedPathReachRate :=
       Some (FFin (py_round (q_mean (reach_indicator metrics_list)) 4));
     samples := length metrics_list |}.

(** A value that is null or stands for a number. *)
Definition numeric_or_null (v : pyval) : bool :=
  match v with
  | PyStr _ => false
  | _ => true
  end.

(** The four summarised fields of a measurement hold numbers or null. *)
Definition numeric_metrics (m : gmap string pyval) : bool :=
  forallb (λ field, numeric_or_null (dict_get m field))
    ["avgFps"; "p95FrameMs"; "droppedFrameRatio"; "navigationDurationMs"]%string.

(** *** Vocabulary for the further properties *)

(** Number of values that are at most [v]. *)
Fixpoint count_at_most (v : Q) (l : list Q) : nat :=
  match l with
  | [] => 0
  | x :: rest => ((if Qle_bool x v then 1 else 0) + count_at_most v rest)%nat
  end.

(** [r] is [n / 10^k] for an integer [n] within one half of [x * 10^k]:
    [x] rounded to [k] decimals. *)
Definition rounds_to (k : nat) (x r : Q) : Prop :=
  ∃ n : Z,
    r == n # scale10 k
    ∧ Qabs (inject_Z n - x * inject_Z (Z.pos (scale10 k))) <= 1 # 2.

(** A page on which the selector matches a hidden link followed by a
    rendered one. *)
Definition two_links_page : page_trace :=
  {| querySelectorAll := λ _, [hidden_link; signup_link];
     startPath := "/signin";
     navStart := 100;
     polls := [ {| poll_clock := 101; poll_path := "/signup"; poll_clock_hit := 102 |} ];
     finalPath := "/signup";
     frameStamps := [100; 116; 132] |}.

(** [visible_selector_wait]: the predicate that [page.wait_for_function]
    polls, on the elements matching the selector. *)
Definition selector_is_visible (matches : list element) : bool :=
  existsb
    (λ el,
       match computedStyle el with
       | None => false
       | Some style =>
           if String.eqb (visibility style) "hidden"
              || String.eqb (display style) "none"
           then false
           else (0 <? clientRects el)%nat
       end) matches.

(** The wait itself, on the successive states of the page that are polled
    before the timeout: it returns at the first state that satisfies the
    predicate and raises TimeoutError when none does. *)
Definition visible_selector_wait (polled : list (list element))
    : result pyexn unit :=
  if existsb selector_is_visible polled then Ok tt else Err TimeoutError.

(** The routes the collectors wait for: the entry route and both ends of
    every configured edge. *)
Definition waited_routes : list string :=
  AUTH_ENTRY_ROUTE :: flat_map (λ edge, [edge.1.1; edge.1.2]) TRANSITIONS.

(** A browser whose second round finds no element for any selector. *)
Definition blank_page : page_trace :=
  {| querySelectorAll := λ _, [];
     startPath := "/signin";
     navStart := 100;
     polls := [];
     finalPath := "/signin";
     frameStamps := [] |}.

Definition second_round_blank_browser : browser :=
  {| entry_ready := λ _, always_ready;
     world := λ round_id _,
       {| path_before := "/signin";
          source_ready := always_ready;
          page := if Nat.eqb round_id 2 then blank_page else stalled_page;
          dest_ready := always_ready |} |}.

(** The numbers a field holds over the runs in which it has one. *)
Definition present_numbers (get : startup_run → option (gmap string pyval))
    (field : string) (startup_runs : list startup_run) : list Q :=
  omap (λ r, match get r with
             | Some d => as_number (dict_get d field)
             | None => None
             end) startup_runs.

(** A navigation field, where the key is present, holds a number. *)
Definition number_if_present (d : option (gmap string pyval)) (field : string)
    : bool :=
  match d ≫= (λ m, m !! field) with
  | Some v => bool_decide (is_Some (as_number v))
  | None => true
  end.

(** The summarised fields of a run hold numbers; a paint or FPS field may
    also be null. *)
Definition startup_typed (r : startup_run) : bool :=
  forallb (number_if_present (navigation r)) nav_fields
  && forallb (λ f, numeric_or_null (opt_dict_get (paint r) f)) paint_fields
  && forallb (λ f, numeric_or_null (opt_dict_get (startupFps r) f)) fps_fields.

(** Decimals kept for an FPS field of the startup summary. *)
Definition fps_places (field : string) : Z :=
  if String.eqb field "droppedFrameRatio" then 4 else 3.

(** *** Navigation and paint snapshot, startup collection *)

(** The entry of [performance.getEntriesByType('navigation')] as far as
    [NAVIGATION_METRICS_JS] reads it. *)
Record navigation_timing : Type := {
  unloadEventEnd : Q;
  redirectCount : nat;
  domainLookupStart : Q;
  domainLookupEnd : Q;
  connectStart : Q;
  secureConnectionStart : Q;
  connectEnd : Q;
  requestStart : Q;
  responseStart : Q;
  responseEnd : Q;
  domInteractive : Q;
  domContentLoadedEventStart : Q;
  domContentLoadedEventEnd : Q;
  domComplete : Q;
  loadEventStart : Q;
  loadEventEnd : Q
}.

Record paint_timing : Type := { paint_name : string; startTime : Q }.

Record performance : Type := {
  navigation_entries : list navigation_timing;
  paint_entries : list paint_timing;
  pathname : string
}.

(** The object [NAVIGATION_METRICS_JS] returns, as Python sees it. *)
Record navigation_snapshot : Type := {
  snap_navigation : option (gmap string pyval);
  snap_paint : gmap string pyval;
  snap_route : string
}.

Definition timing_dict (nav : navigation_timing) : gmap string pyval :=
  <["unloadEventEnd" := PyNum (toFixed (unloadEventEnd nav) 3)]>
  (<["redirectCount" := nat_num (redirectCount nav)]>
  (<["domainLookupStart" := PyNum (toFixed (domainLookupStart nav) 3)]>
  (<["domainLookupEnd" := PyNum (toFixed (domainLookupEnd nav) 3)]>
  (<["connectStart" := PyNum (toFixed (connectStart nav) 3)]>
  (<["secureConnectionStart" := PyNum (toFixed (secureConnectionStart nav) 3)]>
  (<["connectEnd" := PyNum (toFixed (connectEnd nav) 3)]>
  (<["requestStart" := PyNum (toFixed (requestStart nav) 3)]>
  (<["responseStart" := PyNum (toFixed (responseStart nav) 3)]>
  (<["responseEnd" := PyNum (toFixed (responseEnd nav) 3)]>
  (<["domInteractive" := PyNum (toFixed (domInteractive nav) 3)]>
  (<["domContentLoadedEventStart" :=
       PyNum (toFixed (domContentLoadedEventStart nav) 3)]>
  (<["domContentLoadedEventEnd" :=
       PyNum (toFixed (domContentLoadedEventEnd nav) 3)]>
  (<["domComplete" := PyNum (toFixed (domComplete nav) 3)]>
  (<["loadEventStart" := PyNum (toFixed (loadEventStart nav) 3)]>
  (<["loadEventEnd" := PyNum (toFixed (loadEventEnd nav) 3)]>
   ∅))))))))))))))).

(** [for (const paint of paints)
       paintMap[paint.name] = Number(paint.startTime.toFixed(3))] *)
Definition paint_map (paints : list paint_timing) : gmap string pyval :=
  fold_left (λ paintMap p,
               <[paint_name p := PyNum (toFixed (startTime p) 3)]> paintMap)
            paints ∅.

Definition NAVIGATION_METRICS_JS (perf : performance) : navigation_snapshot :=
  {| snap_navigation := timing_dict <$> head (navigation_entries perf);
     snap_paint := paint_map (paint_entries perf);
     snap_route := pathname perf |}.

(** The object [FPS_SAMPLE_JS] resolves with, as a Python dict. *)
Definition sample_dict (s : FrameRateSample) : gmap string pyval :=
  <["avgFps" := PyNum (avgFps s)]>
  (<["p95FrameMs" := PyNum (p95FrameMs s)]>
  (<["droppedFrameRatio" := PyNum (droppedFrameRatio s)]>
  (<["totalFrames" := nat_num (totalFrames s)]>
  (<["sampleDurationMs" := PyNum (sampleDurationMs s)]> ∅)))).

(** What the browser shows during one startup run. *)
Record startup_world : Type := {
  startup_ready : readiness;
  startup_perf : performance;
  startup_frames : list Q;
  page_url : string
}.

(** The body of the loop of [collect_startup_runs].  [None]: the frame
    sampler is still waiting for frames. *)
Definition startup_run_of (w : startup_world) (run_id : nat)
    (startup_fps_sample_ms : Q) : option (result pyexn startup_run) :=
  match wait_for_route_ready AUTH_ENTRY_ROUTE (startup_ready w) with
  | Err e => Some (Err e)
  | Ok _ =>
      let snapshot := NAVIGATION_METRICS_JS (startup_perf w) in
      match FPS_SAMPLE_JS startup_fps_sample_ms (startup_frames w) with
      | None => None
      | Some (Err _) => Some (Err PlaywrightError)
      | Some (Ok startup_fps) =>
          Some (Ok {| run := run_id;
                      route := page_url w;
                      navigation := snap_navigation snapshot;
                      paint := Some (snap_paint snapshot);
                      startupFps := Some (sample_dict startup_fps) |})
      end
  end.

Fixpoint collect_startup (w : nat → startup_world) (startup_fps_sample_ms : Q)
    (first count : nat) : option (result pyexn (list startup_run)) :=
  match count with
  | O => Some (Ok [])
  | S count' =>
      match startup_run_of (w first) first startup_fps_sample_ms with
      | None => None
      | Some (Err e) => Some (Err e)
      | Some (Ok r) =>
          match collect_startup w startup_fps_sample_ms (S first) count' with
          | Some (Ok later) => Some (Ok (r :: later))
          | other => other
          end
      end
  end.

Definition collect_startup_runs (w : nat → startup_world) (startup_runs : nat)
    (startup_fps_sample_ms : Q) : option (result pyexn (list startup_run)) :=
  collect_startup w startup_fps_sample_ms 1 startup_runs.

(** A page with one navigation entry and two [first-paint] entries, and a
    browser that shows it in every run; a browser whose page has no
    navigation entry yet. *)
Definition sample_timing : navigation_timing :=
  {| unloadEventEnd := 0; redirectCount := 0;
     domainLookupStart := 1; domainLookupEnd := 1;
     connectStart := 1; secureConnectionStart := 0; connectEnd := 1;
     requestStart := 2; responseStart := 123456 # 10000; responseEnd := 20;
     domInteractive := 80; domContentLoadedEventStart := 82;
     domContentLoadedEventEnd := 85; domComplete := 200;
     loadEventStart := 200; loadEventEnd := 210 |}.

Definition sample_performance : performance :=
  {| navigation_entries := [sample_timing];
     paint_entries := [ {| paint_name := "first-paint"; startTime := 90 |};
                        {| paint_name := "first-contentful-paint"; startTime := 95 |};
                        {| paint_name := "first-paint"; startTime := 91 |} ];
     pathname := "/signin" |}.

Definition steady_startup (perf : performance) : nat → startup_world :=
  λ _, {| startup_ready := always_ready;
          startup_perf := perf;
          startup_frames := [0; 16; 32; 48];
          page_url := "http://127.0.0.1:5173/signin" |}.

Definition no_entry_performance : performance :=
  {| navigation_entries := []; paint_entries := []; pathname := "/signin" |}.



(** [base_url.rstrip("/")] in [main]: every trailing slash is removed. *)
Fixpoint rstrip_slash (s : string) : string :=
  match s with
  | EmptyString => EmptyString
  | String c rest =>
      match rstrip_slash rest with
      | EmptyString => if Ascii.eqb c "/" then EmptyString
                       else String c EmptyString
      | kept => String c kept
      end
  end.

(** [n] slashes. *)
Fixpoint slashes (n : nat) : string :=
  match n with
  | O => EmptyString
  | S n' => String "/" (slashes n')
  end.

(** The last character of a string, if it has one. *)
Fixpoint last_char (s : string) : option ascii :=
  match s with
  | EmptyString => None
  | String c EmptyString => Some c
  | String _ rest => last_char rest
  end.

(** [f"{base_url}{route}"], the address the collectors navigate to. *)
Definition route_url (base_url route : string) : string :=
  (rstrip_slash base_url ++ route)%string.

(** The keys of a list in order of first occurrence. *)
Fixpoint first_occurrences (keys : list string) : list string :=
  match keys with
  | [] => []
  | k :: rest => k :: filter (λ k', k' ≠ k) (first_occurrences rest)
  end.

(** The edge key of every recorded transition, in recording order. *)
Definition transition_keys (transition_rounds : list round_entry) : list string :=
  map (λ t, edge_key (t_from t) (t_to t)) (all_transitions transition_rounds).

(** ** Rounding *)

Lemma Qltb_lt (x y : Q) : Qltb x y = true ↔ x < y.
Proof.
  unfold Qltb. rewrite negb_true_iff, <- not_true_iff_false, Qle_bool_iff.
  split; [apply Qnot_le_lt | apply Qlt_not_le].
Qed.

Lemma Qltb_ge (x y : Q) : Qltb x y = false ↔ y <= x.
Proof.
  unfold Qltb. rewrite negb_false_iff. apply Qle_bool_iff.
Qed.

Lemma Qltb_proper (x x' y y' : Q) : x == x' → y == y' → Qltb x y = Qltb x' y'.
Proof.
  intros Hx Hy.
  destruct (Qltb x y) eqn:E, (Qltb x' y') eqn:E'; try reflexivity.
  - apply Qltb_lt in E. apply Qltb_ge in E'. rewrite Hx, Hy in E.
    exfalso. exact (Qlt_not_le _ _ E E').
  - apply Qltb_lt in E'. apply Qltb_ge in E. rewrite Hx, Hy in E.
    exfalso. exact (Qlt_not_le _ _ E' E).
Qed.

Lemma nearest_up_proper (x y : Q) (k : nat) :
  x == y → nearest_up x k = nearest_up y k.
Proof.
  intros H. unfold nearest_up. apply Qred_complete.
  assert (E : Qfloor (x * inject_Z (Z.pos (scale10 k)) + (1 # 2))
            = Qfloor (y * inject_Z (Z.pos (scale10 k)) + (1 # 2))).
  { apply Qfloor_comp. rewrite H. reflexivity. }
  rewrite E. reflexivity.
Qed.

Lemma toFixed_proper (x y : Q) (k : nat) : x == y → toFixed x k = toFixed y k.
Proof.
  intros H. unfold toFixed.
  rewrite (Qltb_proper x y 0 0 H (Qeq_refl 0)).
  destruct (Qltb y 0).
  - f_equal. apply nearest_up_proper. rewrite H. reflexivity.
  - apply nearest_up_proper, H.
Qed.

Lemma toFixed_zero (k : nat) : toFixed 0 k = 0.
Proof.
  unfold toFixed. change (Qltb 0 0) with false. cbv iota.
  unfold nearest_up.
  assert (E : Qfloor (0 * inject_Z (Z.pos (scale10 k)) + (1 # 2)) = 0%Z).
  { rewrite (Qfloor_comp _ (1 # 2)); [reflexivity | ring]. }
  rewrite E. apply (Qred_complete (0 # scale10 k) 0). reflexivity.
Qed.

Lemma scale10_pow (k : nat) : Z.pos (scale10 k) = (10 ^ Z.of_nat k)%Z.
Proof.
  destruct k as [|k]; [reflexivity|].
  unfold scale10, pow10. rewrite Pos2Z.inj_pow. f_equal. lia.
Qed.

(** [nearest_up x k] is [n / 10^k] for an integer [n] within one half of
    [x * 10^k], the larger one when two integers are that close. *)
Lemma nearest_up_nearest (x : Q) (k : nat) :
  ∃ n : Z,
    nearest_up x k == n # scale10 k
    ∧ x * inject_Z (Z.pos (scale10 k)) - (1 # 2) < inject_Z n
    ∧ inject_Z n <= x * inject_Z (Z.pos (scale10 k)) + (1 # 2).
Proof.
  exists (Qfloor (x * inject_Z (Z.pos (scale10 k)) + (1 # 2))).
  split; [apply Qred_correct|].
  pose proof (Qfloor_le (x * inject_Z (Z.pos (scale10 k)) + (1 # 2))) as Hle.
  pose proof (Qlt_floor (x * inject_Z (Z.pos (scale10 k)) + (1 # 2))) as Hlt.
  rewrite inject_Z_plus in Hlt. change (inject_Z 1) with 1 in Hlt.
  split; lra.
Qed.

(** [round_half_even y] is an integer within one half of [y], the even one
    when [y] lies halfway between two integers. *)
Lemma round_half_even_nearest (y : Q) :
  y - (1 # 2) <= inject_Z (round_half_even y)
  ∧ inject_Z (round_half_even y) <= y + (1 # 2)
  ∧ (y - inject_Z (Qfloor y) == 1 # 2 → Z.even (round_half_even y) = true).
Proof.
  unfold round_half_even.
  pose proof (Qfloor_le y) as Hle. pose proof (Qlt_floor y) as Hlt.
  rewrite inject_Z_plus in Hlt. change (inject_Z 1) with 1 in Hlt.
  destruct (Qcompare_spec (y - inject_Z (Qfloor y)) (1 # 2)) as [E|E|E].
  - destruct (Z.even (Qfloor y)) eqn:Ev.
    + repeat split; [lra | lra | intros _; exact Ev].
    + rewrite inject_Z_plus. change (inject_Z 1) with 1.
      repeat split; [lra | lra |]. intros _.
      rewrite Z.add_1_r, Z.even_succ, <- Z.negb_even, Ev. reflexivity.
  - repeat split; [lra | lra |]. intros H. rewrite H in E.
    exfalso. exact (Qlt_irrefl _ E).
  - rewrite inject_Z_plus. change (inject_Z 1) with 1.
    repeat split; [lra | lra |]. intros H. rewrite H in E.
    exfalso. exact (Qlt_irrefl _ E).
Qed.

Lemma py_round_decimals (x : Q) (k : nat) :
  py_round x (Z.of_nat k)
  == round_half_even (x * inject_Z (Z.pos (scale10 k))) # scale10 k.
Proof.
  unfold py_round. rewrite Nat2Z.id.
  destruct (Z.of_nat k) eqn:E; try apply Qred_correct. lia.
Qed.

(** ** The frame-rate reduction is total *)

Lemma js_insert_length (x : Q) (l : list Q) :
  length (js_insert x l) = S (length l).
Proof.
  induction l as [|h t IH]; simpl; [reflexivity|].
  destruct (Qltb h x); simpl; [rewrite IH|]; reflexivity.
Qed.

Lemma js_sort_length (l : list Q) : length (js_sort l) = length l.
Proof.
  induction l as [|x t IH]; simpl; [reflexivity|].
  rewrite js_insert_length, IH. reflexivity.
Qed.

Lemma ceil_95_le (n : nat) :
  (Qceiling (inject_Z (Z.of_nat n) * (95 # 100)) ≤ Z.of_nat n)%Z.
Proof.
  rewrite <- (Qceiling_Z (Z.of_nat n)) at 2.
  apply Qceiling_resp_le.
  assert (0 <= inject_Z (Z.of_nat n)) as Hn.
  { change 0 with (inject_Z 0). rewrite <- Zle_Qle. lia. }
  lra.
Qed.

Lemma frame_deltas_length (stamps : list Q) :
  length (frame_deltas stamps) = (length stamps - 1)%nat.
Proof.
  induction stamps as [|a rest IH]; [reflexivity|].
  destruct rest as [|b rest']; [reflexivity|].
  change (frame_deltas (a :: b :: rest'))
    with ((b - a) :: frame_deltas (b :: rest')).
  simpl length in *. rewrite IH. lia.
Qed.

Lemma frame_deltas_nil (stamps : list Q) :
  (length stamps < 2)%nat → frame_deltas stamps = [].
Proof.
  intros H. apply length_zero_iff_nil. rewrite frame_deltas_length. lia.
Qed.

Lemma dropped_count_count_over (deltas : list Q) :
  dropped_count deltas = count_over 24 deltas.
Proof.
  unfold dropped_count.
  induction deltas as [|d rest IH]; [reflexivity|].
  rewrite filter_cons. simpl count_over.
  destruct (decide (Qltb 24 d = true)) as [E|E].
  - rewrite E. simpl. rewrite IH. reflexivity.
  - apply not_true_is_false in E. rewrite E. simpl. exact IH.
Qed.

Lemma inject_nat_nonzero (n : nat) :
  (0 < n)%nat → Qeq_bool (inject_Z (Z.of_nat n)) 0 = false.
Proof.
  intros H. apply not_true_is_false. intros E.
  apply Qeq_bool_iff in E. unfold Qeq in E. simpl in E. lia.
Qed.

Lemma dropped_raw_ok (deltas : list Q) :
  deltas ≠ [] →
  dropped_raw deltas
  = Ok (inject_Z (Z.of_nat (count_over 24 deltas))
        / inject_Z (Z.of_nat (length deltas))).
Proof.
  intros H. unfold dropped_raw, js_div.
  destruct deltas as [|d rest]; [congruence|].
  change (0 <? length (d :: rest))%nat with true. cbv iota.
  rewrite inject_nat_nonzero by (simpl; lia).
  rewrite dropped_count_count_over. reflexivity.
Qed.

Lemma fps_raw_ok (deltas : list Q) : fps_raw deltas = Ok (fps_value deltas).
Proof.
  unfold fps_raw, fps_value, js_div.
  destruct (Qltb 0 (sum_deltas deltas)) eqn:E; [|reflexivity].
  apply Qltb_lt in E.
  destruct (Qeq_bool (sum_deltas deltas) 0) eqn:Z; [|reflexivity].
  apply Qeq_bool_iff in Z. rewrite Z in E. exfalso. exact (Qlt_irrefl 0 E).
Qed.

Lemma percentile_index_lt (n : nat) : (0 < n)%nat → (percentile_index n < n)%nat.
Proof.
  intros H. unfold percentile_index. pose proof (ceil_95_le n). lia.
Qed.

Lemma p95_raw_ok (deltas : list Q) :
  deltas ≠ [] →
  ∃ v, js_sort deltas !! percentile_index (length deltas) = Some v
       ∧ p95_raw deltas = Ok v.
Proof.
  intros H.
  assert (0 < length deltas)%nat as Hlen.
  { destruct deltas; [congruence | simpl; lia]. }
  destruct (lookup_lt_is_Some_2 (js_sort deltas) (percentile_index (length deltas)))
    as [v Hv].
  { rewrite js_sort_length. apply percentile_index_lt, Hlen. }
  exists v. split; [exact Hv|].
  unfold p95_raw, js_index, p95Idx. rewrite js_sort_length.
  destruct (0 <? length deltas)%nat eqn:E; [|apply Nat.ltb_ge in E; lia].
  destruct (Z.max 0 (Qceiling (inject_Z (Z.of_nat (length deltas)) * 0.95) - 1)
            <? 0)%Z eqn:E0; [apply Z.ltb_lt in E0; lia|].
  change (Z.to_nat (Z.max 0
            (Qceiling (inject_Z (Z.of_nat (length deltas)) * 0.95) - 1)))
    with (percentile_index (length deltas)).
  rewrite Hv. reflexivity.
Qed.

Lemma frame_stats_empty (stamps : list Q) :
  frame_deltas stamps = [] → frame_stats stamps = Ok empty_sample.
Proof.
  intros H. unfold frame_stats. rewrite H. reflexivity.
Qed.

Lemma frame_stats_nonempty (stamps : list Q) :
  frame_deltas stamps ≠ [] →
  ∃ v, js_sort (frame_deltas stamps)
         !! percentile_index (length (frame_deltas stamps)) = Some v
     ∧ frame_stats stamps
       = Ok {| avgFps := toFixed (fps_value (frame_deltas stamps)) 3;
               p95FrameMs := toFixed v 3;
               droppedFrameRatio :=
                 toFixed (inject_Z (Z.of_nat (count_over 24 (frame_deltas stamps)))
                          / inject_Z (Z.of_nat (length (frame_deltas stamps)))) 4;
               totalFrames := length (frame_deltas stamps);
               sampleDurationMs := toFixed (sum_deltas (frame_deltas stamps)) 3 |}.
Proof.
  intros H. destruct (p95_raw_ok _ H) as [v [Hv Hp]].
  exists v. split; [exact Hv|].
  unfold frame_stats. rewrite fps_raw_ok, Hp, (dropped_raw_ok _ H). reflexivity.
Qed.

(** The reduction never faults: no division by zero, no read past the
    end of the sorted deltas. *)
Lemma frame_stats_total (stamps : list Q) : ∃ s, frame_stats stamps = Ok s.
Proof.
  destruct (frame_deltas stamps) as [|d rest] eqn:E.
  - exists empty_sample. apply frame_stats_empty, E.
  - destruct (frame_stats_nonempty stamps) as [v [_ Hs]]; [rewrite E; discriminate|].
    eexists. exact Hs.
Qed.

(** ** Sorting the deltas *)

Lemma js_insert_perm (x : Q) (l : list Q) : js_insert x l ≡ₚ x :: l.
Proof.
  induction l as [|h t IH]; simpl; [reflexivity|].
  destruct (Qltb h x); [|reflexivity].
  rewrite IH. apply Permutation_swap.
Qed.

Lemma js_sort_perm (l : list Q) : js_sort l ≡ₚ l.
Proof.
  induction l as [|x t IH]; simpl; [reflexivity|].
  rewrite js_insert_perm, IH. reflexivity.
Qed.

Lemma js_insert_hd (a x : Q) (l : list Q) :
  a <= x → HdRel Qle a l → HdRel Qle a (js_insert x l).
Proof.
  intros Hax Hl. destruct l as [|h t]; simpl.
  - constructor. exact Hax.
  - inversion Hl; subst. destruct (Qltb h x); constructor; assumption.
Qed.

Lemma js_insert_sorted (x : Q) (l : list Q) :
  Sorted Qle l → Sorted Qle (js_insert x l).
Proof.
  induction 1 as [|h t Ht IH Hhd]; simpl.
  - repeat constructor.
  - destruct (Qltb h x) eqn:E.
    + constructor; [exact IH|].
      apply js_insert_hd; [|exact Hhd]. apply Qlt_le_weak, Qltb_lt, E.
    + constructor; [constructor; assumption|].
      constructor. apply Qltb_ge, E.
Qed.

Lemma js_sort_sorted (l : list Q) : Sorted Qle (js_sort l).
Proof.
  induction l as [|x t IH]; simpl; [constructor|].
  apply js_insert_sorted, IH.
Qed.

(** ** Duration of a window *)

Lemma sum_deltas_telescopes (l : list Q) (a acc : Q) :
  fold_left Qplus (frame_deltas (a :: l)) acc == acc + (List.last (a :: l) 0 - a).
Proof.
  revert a acc. induction l as [|b l' IH]; intros a acc.
  - simpl. ring.
  - change (frame_deltas (a :: b :: l'))
      with ((b - a) :: frame_deltas (b :: l')).
    change (List.last (a :: b :: l') 0) with (List.last (b :: l') 0).
    cbn [fold_left]. rewrite (IH b (acc + (b - a))). ring.
Qed.

Lemma sum_deltas_total_duration (stamps : list Q) :
  sum_deltas (frame_deltas stamps) == total_duration stamps.
Proof.
  unfold sum_deltas, total_duration. destruct stamps as [|a l].
  - simpl. ring.
  - rewrite sum_deltas_telescopes. simpl hd. ring.
Qed.




(** What [FPS_SAMPLE_JS] resolves with is the reduction of the frames seen
    so far. *)
Lemma fps_step_is_frame_stats (durationMs : Q) (start : option Q)
    (stamps frames : list Q) (r : result js_fault FrameRateSample) :
  fps_step durationMs start stamps frames = Some r →
  ∃ n, (n < length frames)%nat ∧ r = frame_stats (stamps ++ take (S n) frames).
Proof.
  revert start stamps. induction frames as [|ts later IH]; intros start stamps.
  - discriminate.
  - cbn [fps_step]. destruct (Qle_bool _ _).
    + intros [= <-]. exists 0%nat. split; [simpl; lia | reflexivity].
    + intros H. destruct (IH _ _ H) as [n [Hn ->]].
      exists (S n). split; [simpl; lia|].
      rewrite <- app_assoc. reflexivity.
Qed.

Lemma fps_sample_is_frame_stats (durationMs : Q) (frames : list Q)
    (r : result js_fault FrameRateSample) :
  FPS_SAMPLE_JS durationMs frames = Some r →
  ∃ n, (n < length frames)%nat ∧ r = frame_stats (take (S n) frames).
Proof.
  apply fps_step_is_frame_stats.
Qed.

(** ** Frame-rate sampler *)

(** C2: a window with fewer than two timestamps has no inter-frame delta;
    the reduction then returns avgFps = 0, p95FrameMs = 0 and
    droppedFrameRatio = 0 and performs no division (it does not fault). *)
Theorem degenerate_window_is_zero (stamps : list Q) :
  (length stamps < 2)%nat →
  ∃ s, frame_stats stamps = Ok s
       ∧ avgFps s = 0 ∧ p95FrameMs s = 0 ∧ droppedFrameRatio s = 0
       ∧ totalFrames s = 0%nat.
Proof.
  intros H. exists empty_sample. split.
  - apply frame_stats_empty, frame_deltas_nil, H.
  - repeat split.
Qed.

Lemma degenerate_window_is_zero_witness :
  ∃ s, frame_stats [5] = Ok s
       ∧ avgFps s = 0 ∧ p95FrameMs s = 0 ∧ droppedFrameRatio s = 0
       ∧ totalFrames s = 0%nat.
Proof.
  apply (degenerate_window_is_zero [5]). simpl. lia.
Defined.

(** The sampler itself reaches that case when the budget is already spent
    at the first frame. *)
Lemma fps_sample_no_budget (durationMs ts : Q) (later : list Q) :
  durationMs <= 0 → FPS_SAMPLE_JS durationMs (ts :: later) = Some (Ok empty_sample).
Proof.
  intros H. unfold FPS_SAMPLE_JS. simpl.
  assert (Qle_bool durationMs (ts - ts) = true) as E.
  { apply Qle_bool_iff. lra. }
  rewrite E. reflexivity.
Qed.





(** C5, as stated: the reported p95FrameMs is the element of the sorted
    deltas at index max(0, ceil(n * 0.95) - 1).  It fails for a single
    delta of 16.6667 ms: the element is 16.6667, the report says 16.667. *)
Lemma p95_report_differs_from_element :
  ∃ s v, frame_stats [0; 166667 # 10000] = Ok s
         ∧ js_sort (frame_deltas [0; 166667 # 10000])
             !! percentile_index (length (frame_deltas [0; 166667 # 10000]))
           = Some v
         ∧ ¬ p95FrameMs s == v.
Proof.
  eexists _, _. split; [vm_compute; reflexivity|].
  split; [vm_compute; reflexivity|].
  vm_compute. discriminate.
Qed.

(** C5, amended: for a non-empty list of n deltas the sampler selects the
    element at index max(0, ceil(n * 0.95) - 1) of the deltas sorted
    ascending, and reports that element rounded to 3 decimals. *)
Theorem p95_is_rounded_percentile_element (stamps deltas : list Q) :
  frame_deltas stamps = deltas →
  deltas ≠ [] →
  ∃ s v, frame_stats stamps = Ok s
         ∧ Sorted Qle (js_sort deltas)
         ∧ js_sort deltas ≡ₚ deltas
         ∧ js_sort deltas !! percentile_index (length deltas) = Some v
         ∧ p95_raw deltas = Ok v
         ∧ p95FrameMs s = toFixed v 3.
Proof.
  intros <- Hne.
  destruct (frame_stats_nonempty stamps Hne) as [v [Hv Hs]].
  eexists _, v. split; [exact Hs|].
  split; [apply js_sort_sorted|]. split; [apply js_sort_perm|].
  split; [exact Hv|]. split; [|reflexivity].
  destruct (p95_raw_ok _ Hne) as [v' [Hv' Hp]]. congruence.
Qed.

(** Deltas [5, 10, 15, 20]: the index is 3 and p95FrameMs is 20. *)
Lemma p95_is_rounded_percentile_element_witness :
  percentile_index 4 = 3%nat
  ∧ ∃ s, frame_stats [0; 5; 15; 30; 50] = Ok s ∧ p95FrameMs s = 20.
Proof.
  split; [reflexivity|].
  destruct (p95_is_rounded_percentile_element
              [0; 5; 15; 30; 50] [5; 10; 15; 20] eq_refl)
    as [s [v [Hs [_ [_ [Hv [_ Hp]]]]]]]; [discriminate|].
  exists s. split; [exact Hs|]. rewrite Hp.
  assert (v = 20) as -> by (vm_compute in Hv; congruence).
  reflexivity.
Defined.

(** ** Transition sampler: target selection *)

Lemma transition_target_none (candidates : list element) :
  transition_target candidates = None ↔ candidates = [].
Proof.
  unfold transition_target. split.
  - destruct (List.find _ candidates); [discriminate|].
    destruct candidates; [reflexivity | discriminate].
  - intros ->. reflexivity.
Qed.


Lemma transition_target_visible (candidates : list element) (e : element) :
  List.find (λ e, isVisible (Some e)) candidates = Some e →
  transition_target candidates = Some e.
Proof.
  intros E. unfold transition_target. rewrite E. reflexivity.
Qed.










(** ** Transition sampler: navigation duration *)

Lemma wait_for_path_first_hit (navDeadline : Q) (expected : string)
    (polls : list poll) (navEnd : option Q) :
  wait_for_path navDeadline expected polls = Some navEnd →
  navEnd = poll_clock_hit <$> first_hit expected (performed_polls navDeadline polls).
Proof.
  unfold first_hit. induction polls as [|p later IH]; simpl; [discriminate|].
  destruct (Qltb (poll_clock p) navDeadline); simpl.
  - destruct (String.eqb (poll_path p) expected); [|exact IH].
    intros [= <-]. reflexivity.
  - intros [= <-]. reflexivity.
Qed.

(** The loop is left once a poll sees the expected path or finds the
    deadline passed. *)
Lemma wait_for_path_settles (navDeadline : Q) (expected : string) (polls : list poll) :
  (∃ p, p ∈ polls ∧ navDeadline <= poll_clock p) →
  ∃ navEnd, wait_for_path navDeadline expected polls = Some navEnd.
Proof.
  intros [p [Hin Hlate]].
  induction polls as [|q later IH]; [inversion Hin|]. simpl.
  destruct (Qltb (poll_clock q) navDeadline) eqn:E; [|eauto].
  destruct (String.eqb (poll_path q) expected); [eauto|].
  apply IH. apply elem_of_cons in Hin as [->|Hin]; [|exact Hin].
  apply Qltb_lt in E. exfalso. exact (Qlt_not_le _ _ E Hlate).
Qed.

Lemma first_hit_none (expected : string) (performed : list poll) :
  first_hit expected performed = None
  ↔ ∀ p, p ∈ performed → poll_path p ≠ expected.
Proof.
  unfold first_hit. split.
  - intros H p Hin Hp. apply list_elem_of_In in Hin.
    pose proof (find_none _ _ H p Hin) as Hf. simpl in Hf.
    apply String.eqb_neq in Hf. contradiction.
  - intros H. destruct (List.find _ performed) as [p|] eqn:E; [|reflexivity].
    apply find_some in E as [Hin Hp]. apply String.eqb_eq in Hp.
    exfalso. apply (H p); [apply list_elem_of_In, Hin | exact Hp].
Qed.

(** The sampler returns a measurement once a target exists and some poll
    finds the deadline passed. *)
Lemma transition_fps_settles (args : transition_args) (page : page_trace) :
  querySelectorAll page (selector args) ≠ [] →
  (∃ p, p ∈ polls page ∧ navStart page + timeoutMs args <= poll_clock p) →
  ∃ clicked m,
    TRANSITION_FPS_JS args page = Some (Ok (TransitionDone clicked m))
    ∧ Ok (m_sample m) = frame_stats (frameStamps page).
Proof.
  intros Hne Hlate. unfold TRANSITION_FPS_JS.
  destruct (transition_target _) as [target|] eqn:T.
  2:{ apply transition_target_none in T. contradiction. }
  destruct (wait_for_path_settles _ (expectedPath args) _ Hlate) as [navEnd ->].
  destruct (frame_stats_total (frameStamps page)) as [sample ->].
  eexists _, _. split; reflexivity.
Qed.

(** C8: in a measurement returned without error, navigationDurationMs is
    null exactly when no poll performed before the deadline saw the
    expected path; otherwise it is the time from [navStart] to the clock
    read by the first poll that saw it, rounded to 3 decimals. *)
Theorem navigation_duration_of_first_hit (args : transition_args)
    (page : page_trace) (clicked : element) (m : TransitionMeasurement) :
  TRANSITION_FPS_JS args page = Some (Ok (TransitionDone clicked m)) →
  let performed :=
    performed_polls (navStart page + timeoutMs args) (polls page) in
  (navigationDurationMs m = None
   ↔ ∀ p, p ∈ performed → poll_path p ≠ expectedPath args)
  ∧ navigationDurationMs m
    = (λ p, toFixed (poll_clock_hit p - navStart page) 3)
      <$> first_hit (expectedPath args) performed.
Proof.
  intros H performed.
  assert (navigationDurationMs m
          = (λ p, toFixed (poll_clock_hit p - navStart page) 3)
            <$> first_hit (expectedPath args) performed) as Hdur.
  { unfold TRANSITION_FPS_JS in H.
    destruct (transition_target _) as [target|]; [|discriminate].
    destruct (wait_for_path _ _ _) as [navEnd|] eqn:W; [|discriminate].
    apply wait_for_path_first_hit in W. fold performed in W.
    destruct (frame_stats _) as [sample|]; simpl in H; [|discriminate].
    injection H as _ <-. simpl. rewrite W.
    destruct (first_hit _ _); reflexivity. }
  split; [|exact Hdur].
  rewrite Hdur, <- first_hit_none.
  destruct (first_hit _ _); simpl; split; congruence.
Qed.

Lemma navigation_duration_of_first_hit_witness :
  ∃ m, TRANSITION_FPS_JS signup_args hidden_link_page
       = Some (Ok (TransitionDone hidden_link m))
       ∧ navigationDurationMs m = Some 18.
Proof.
  assert (∃ m, TRANSITION_FPS_JS signup_args hidden_link_page
               = Some (Ok (TransitionDone hidden_link m))) as [m Hm].
  { eexists. vm_compute. reflexivity. }
  exists m. split; [exact Hm|].
  destruct (navigation_duration_of_first_hit _ _ _ _ Hm) as [_ Hd].
  rewrite Hd. reflexivity.
Defined.

(** A page that reaches the expected path only after the deadline: the
    duration is null although the final path is the expected one. *)
Example late_navigation_has_no_duration :
  ∃ m, TRANSITION_FPS_JS signup_args late_page
       = Some (Ok (TransitionDone signup_link m))
       ∧ navigationDurationMs m = None
       ∧ reachedExpectedPath m = true.
Proof.
  eexists. split; [vm_compute; reflexivity|]. split; reflexivity.
Qed.

(** ** Rounding of summary values *)



(** ** Startup aggregation *)

(** The paint and FPS comprehensions never keep a null. *)
Lemma paint_vals_not_None (field : string) (startup_runs : list startup_run) :
  Forall (λ v, is_not_None v = true) (paint_vals field startup_runs).
Proof.
  unfold paint_vals. induction startup_runs as [|r rest IH]; [constructor|].
  cbn [omap list_omap].
  destruct (dict_truthy (paint r)); [|exact IH].
  destruct (is_not_None (opt_dict_get (paint r) field)) eqn:E; [|exact IH].
  constructor; assumption.
Qed.

Lemma fps_vals_not_None (field : string) (startup_runs : list startup_run) :
  Forall (λ v, is_not_None v = true) (fps_vals field startup_runs).
Proof.
  unfold fps_vals. induction startup_runs as [|r rest IH]; [constructor|].
  cbn [omap list_omap].
  destruct (dict_truthy (startupFps r)); [|exact IH].
  destruct (is_not_None (opt_dict_get (startupFps r) field)) eqn:E; [|exact IH].
  constructor; assumption.
Qed.


(** The paint fields do skip a null value: the same three runs with the
    null in [first-paint] give the median of the other two. *)
Example null_first_paint_is_skipped :
  paint_vals "first-paint" runs_null_first_paint = [PyNum 90; PyNum 94]
  ∧ ∃ s, aggregate_startup runs_null_first_paint = Ok s
         ∧ paintMsMedian s !! "first-paint" = Some (Some (FFin 92))
         ∧ navigationMsMedian s !! "domComplete" = Some (Some (FFin 150)).
Proof.
  split; [vm_compute; reflexivity|].
  eexists. split; [vm_compute; reflexivity|]. split; vm_compute; reflexivity.
Qed.

(** ** Statistics on captured values *)

Lemma as_number_not_None (v : pyval) :
  numeric_or_null v = true → is_not_None v = true → is_Some (as_number v).
Proof.
  destruct v; simpl; try discriminate; eauto.
Qed.

Lemma metric_vals_numbers (field : string) (g : list (gmap string pyval)) :
  (∀ m, m ∈ g → numeric_or_null (dict_get m field) = true) →
  Forall (λ v, is_Some (as_number v)) (metric_vals field g)
  ∧ omap as_number (metric_vals field g) = field_numbers field g.
Proof.
  unfold metric_vals, field_numbers.
  induction g as [|m g IH]; intros Hty; [split; [constructor | reflexivity]|].
  destruct IH as [IH1 IH2].
  { intros m' Hm'. apply Hty. right. exact Hm'. }
  pose proof (Hty m ltac:(left)) as Hm.
  simpl. destruct (dict_get m field) as [|b|q|s] eqn:E; simpl in *;
    try discriminate; (split; [repeat constructor; eauto | f_equal; exact IH2])
    || (split; [exact IH1 | exact IH2]).
Qed.

Lemma numbers_cons (v : pyval) (x : Q) (vals : list pyval) :
  as_number v = Some x →
  omap as_number (v :: vals) = x :: omap as_number vals.
Proof.
  intros H. cbn [omap list_omap]. rewrite H. reflexivity.
Qed.

Lemma py_sum_numbers (vals : list pyval) :
  Forall (λ v, is_Some (as_number v)) vals →
  py_sum vals = Ok (q_sum (omap as_number vals)).
Proof.
  induction 1 as [|v vals [x Hx] _ IH]; [reflexivity|].
  rewrite (numbers_cons v x vals Hx). cbn [py_sum]. rewrite Hx, IH. reflexivity.
Qed.

Lemma omap_numbers_length (vals : list pyval) :
  Forall (λ v, is_Some (as_number v)) vals →
  length (omap as_number vals) = length vals.
Proof.
  induction 1 as [|v vals [x Hx] _ IH]; [reflexivity|].
  rewrite (numbers_cons v x vals Hx). cbn [length]. f_equal. exact IH.
Qed.

Lemma mean_numbers (vals : list pyval) :
  Forall (λ v, is_Some (as_number v)) vals → vals ≠ [] →
  mean vals = Ok (PyNum (q_mean (omap as_number vals))).
Proof.
  intros Hnum Hne. unfold mean, q_mean.
  destruct vals as [|v vals]; [congruence|].
  change (Nat.eqb (length (v :: vals)) 0) with false. cbv iota.
  rewrite (py_sum_numbers _ Hnum), (omap_numbers_length _ Hnum). reflexivity.
Qed.

Lemma py_lt_numbers (a b : pyval) (x y : Q) :
  as_number a = Some x → as_number b = Some y → py_lt a b = Ok (Qltb x y).
Proof.
  intros Ha Hb. unfold py_lt. rewrite Ha, Hb.
  destruct a, b; try discriminate; reflexivity.
Qed.

Lemma py_insert_numbers (v : pyval) (x : Q) (sorted : list pyval) :
  as_number v = Some x →
  Forall (λ v, is_Some (as_number v)) sorted →
  ∃ sorted', py_insert v sorted = Ok sorted'
             ∧ Forall (λ v, is_Some (as_number v)) sorted'
             ∧ omap as_number sorted' = js_insert x (omap as_number sorted).
Proof.
  intros Hv. induction 1 as [|h t [y Hy] Ht IH].
  - exists [v]. split; [reflexivity|]. split; [repeat constructor; eauto|].
    rewrite (numbers_cons v x [] Hv). reflexivity.
  - rewrite (numbers_cons h y t Hy). cbn [py_insert js_insert].
    rewrite (py_lt_numbers h v y x Hy Hv). cbn [mbind result_mbind result_bind].
    destruct (Qltb y x).
    + destruct IH as [t' [Ht' [Hnum Hmap]]]. rewrite Ht'.
      exists (h :: t'). split; [reflexivity|]. split.
      * constructor; eauto.
      * rewrite (numbers_cons h y t' Hy), Hmap. reflexivity.
    + exists (v :: h :: t). split; [reflexivity|]. split.
      * repeat constructor; eauto.
      * rewrite (numbers_cons v x _ Hv), (numbers_cons h y t Hy). reflexivity.
Qed.

Lemma py_sorted_numbers (vals : list pyval) :
  Forall (λ v, is_Some (as_number v)) vals →
  ∃ sorted, py_sorted vals = Ok sorted
            ∧ Forall (λ v, is_Some (as_number v)) sorted
            ∧ omap as_number sorted = js_sort (omap as_number vals).
Proof.
  induction 1 as [|v vals [x Hx] _ IH].
  - exists []. repeat split. constructor.
  - destruct IH as [s [Hs [Hnum Hmap]]].
    destruct (py_insert_numbers v x s Hx Hnum) as [s' [Hs' [Hnum' Hmap']]].
    exists s'. cbn [py_sorted]. rewrite Hs. cbn [mbind result_mbind result_bind].
    split; [exact Hs'|]. split; [exact Hnum'|].
    rewrite (numbers_cons v x vals Hx), Hmap', Hmap. reflexivity.
Qed.

Lemma nth_numbers (sorted : list pyval) (i : nat) :
  Forall (λ v, is_Some (as_number v)) sorted →
  (i < length sorted)%nat →
  as_number (nth i sorted PyNone) = Some (nth i (omap as_number sorted) 0).
Proof.
  intros H. revert i. induction H as [|v t [x Hx] _ IH]; intros i Hi.
  - simpl in Hi. lia.
  - rewrite (numbers_cons v x t Hx). destruct i as [|i].
    + exact Hx.
    + cbn [nth]. apply IH. simpl in Hi. lia.
Qed.

Lemma py_add_numbers (a b : pyval) (x y : Q) :
  as_number a = Some x → as_number b = Some y → py_add a b = Ok (PyNum (x + y)).
Proof.
  intros Ha Hb. unfold py_add. rewrite Ha, Hb.
  destruct a, b; try discriminate; reflexivity.
Qed.

Lemma median_numbers (vals : list pyval) :
  Forall (λ v, is_Some (as_number v)) vals → vals ≠ [] →
  ∃ v, median vals = Ok v
       ∧ as_number v = Some (q_median (omap as_number vals)).
Proof.
  intros Hnum Hne.
  destruct (py_sorted_numbers vals Hnum) as [s [Hs [Hsnum Hmap]]].
  assert (length s = length vals) as Hlen.
  { rewrite <- (omap_numbers_length s Hsnum), Hmap, js_sort_length.
    apply omap_numbers_length, Hnum. }
  assert (0 < length s)%nat as Hpos.
  { rewrite Hlen. destruct vals; [congruence | simpl; lia]. }
  unfold median, q_median. rewrite Hs. cbn [mbind result_mbind result_bind].
  rewrite <- Hmap, (omap_numbers_length s Hsnum).
  destruct (Nat.eqb (length s) 0) eqn:E0; [apply Nat.eqb_eq in E0; lia|].
  assert (length s / 2 < length s)%nat as Hmid
    by (apply Nat.div_lt; lia).
  destruct (Nat.eqb (length s mod 2) 1).
  - eexists. split; [reflexivity|]. apply nth_numbers; assumption.
  - rewrite (py_add_numbers _ _ _ _
               (nth_numbers s (length s / 2 - 1) Hsnum ltac:(lia))
               (nth_numbers s (length s / 2) Hsnum Hmid)).
    cbn [mbind result_mbind result_bind]. eexists. split; reflexivity.
Qed.

Lemma safe_round_value_number (v : pyval) (x : Q) (places : Z) :
  as_number v = Some x →
  safe_round_value v places = Ok (Some (FFin (py_round x places))).
Proof.
  destruct v as [|b|q|s]; simpl; try discriminate.
  - intros [= <-]. destruct b; reflexivity.
  - intros [= <-]. reflexivity.
Qed.

Lemma median_or_None_numbers (vals : list pyval) (places : Z) :
  Forall (λ v, is_Some (as_number v)) vals →
  median_or_None vals places
  = Ok (rounded_stat q_median places (omap as_number vals)).
Proof.
  intros Hnum. destruct vals as [|v vals]; [reflexivity|].
  destruct (median_numbers (v :: vals) Hnum ltac:(discriminate)) as [m [Hm Hx]].
  unfold median_or_None. rewrite Hm. cbn [mbind result_mbind result_bind].
  rewrite (safe_round_value_number _ _ places Hx).
  inversion Hnum as [|? ? [x Hv] _]; subst.
  rewrite (numbers_cons v x vals Hv). reflexivity.
Qed.

Lemma mean_or_None_numbers (vals : list pyval) (places : Z) :
  Forall (λ v, is_Some (as_number v)) vals →
  mean_or_None vals places
  = Ok (rounded_stat q_mean places (omap as_number vals)).
Proof.
  intros Hnum. destruct vals as [|v vals]; [reflexivity|].
  unfold mean_or_None.
  rewrite (mean_numbers (v :: vals) Hnum ltac:(discriminate)).
  cbn [mbind result_mbind result_bind safe_round_value safe_round
       isinstance_float math_isnan andb round_float py_float].
  inversion Hnum as [|? ? [x Hv] _]; subst.
  rewrite (numbers_cons v x vals Hv). reflexivity.
Qed.

(** ** Transition aggregation *)

Lemma numeric_metrics_field (m : gmap string pyval) (field : string) :
  numeric_metrics m = true →
  field ∈ ["avgFps"; "p95FrameMs"; "droppedFrameRatio"; "navigationDurationMs"]%string →
  numeric_or_null (dict_get m field) = true.
Proof.
  unfold numeric_metrics. rewrite forallb_forall.
  intros H Hin. apply H. apply list_elem_of_In, Hin.
Qed.

Lemma field_median (field : string) (places : Z) (g : list (gmap string pyval)) :
  (∀ m, m ∈ g → numeric_metrics m = true) →
  field ∈ ["avgFps"; "p95FrameMs"; "droppedFrameRatio"; "navigationDurationMs"]%string →
  median_or_None (metric_vals field g) places
  = Ok (rounded_stat q_median places (field_numbers field g)).
Proof.
  intros Hty Hin.
  destruct (metric_vals_numbers field g) as [Hnum Hmap].
  { intros m Hm. apply numeric_metrics_field; auto. }
  rewrite (median_or_None_numbers _ places Hnum), Hmap. reflexivity.
Qed.

Lemma field_mean (field : string) (places : Z) (g : list (gmap string pyval)) :
  (∀ m, m ∈ g → numeric_metrics m = true) →
  field ∈ ["avgFps"; "p95FrameMs"; "droppedFrameRatio"; "navigationDurationMs"]%string →
  mean_or_None (metric_vals field g) places
  = Ok (rounded_stat q_mean places (field_numbers field g)).
Proof.
  intros Hty Hin.
  destruct (metric_vals_numbers field g) as [Hnum Hmap].
  { intros m Hm. apply numeric_metrics_field; auto. }
  rewrite (mean_or_None_numbers _ places Hnum), Hmap. reflexivity.
Qed.

Lemma reach_flags_numbers (g : list (gmap string pyval)) :
  Forall (λ v, is_Some (as_number v)) (reach_flags g)
  ∧ omap as_number (reach_flags g) = reach_indicator g.
Proof.
  unfold reach_flags, reach_indicator.
  induction g as [|m g [IH1 IH2]]; [split; [constructor | reflexivity]|].
  cbn [map]. destruct (py_truthy (dict_get m "reachedExpectedPath")).
  - split; [constructor; eauto|].
    rewrite (numbers_cons (PyNum 1) 1 _ eq_refl), IH2. reflexivity.
  - split; [constructor; eauto|].
    rewrite (numbers_cons (PyNum 0) 0 _ eq_refl), IH2. reflexivity.
Qed.

Lemma summarize_edge_numeric (g : list (gmap string pyval)) :
  g ≠ [] →
  (∀ m, m ∈ g → numeric_metrics m = true) →
  summarize_edge g = Ok (expected_edge_summary g).
Proof.
  intros Hne Hty. unfold summarize_edge, expected_edge_summary.
  destruct (reach_flags_numbers g) as [Hnum Hmap].
  rewrite (mean_numbers _ Hnum), Hmap.
  2:{ destruct g; [congruence | discriminate]. }
  cbn [mbind result_mbind result_bind].
  rewrite (field_mean "avgFps" 3 g Hty) by set_solver.
  rewrite (field_median "avgFps" 3 g Hty) by set_solver.
  rewrite (field_median "p95FrameMs" 3 g Hty) by set_solver.
  rewrite (field_median "droppedFrameRatio" 4 g Hty) by set_solver.
  rewrite (field_median "navigationDurationMs" 3 g Hty) by set_solver.
  reflexivity.
Qed.

Lemma lookup_setdefault_append (k key : string) (m : gmap string pyval)
    (by_edge : list (string * list (gmap string pyval))) :
  summary_lookup k (setdefault_append key m by_edge)
  = if String.eqb key k
    then Some (default [] (summary_lookup k by_edge) ++ [m])
    else summary_lookup k by_edge.
Proof.
  induction by_edge as [|[k' l] rest IH].
  - simpl. destruct (String.eqb key k); reflexivity.
  - cbn [setdefault_append]. destruct (String.eqb k' key) eqn:E.
    + apply String.eqb_eq in E as ->. cbn [summary_lookup].
      destruct (String.eqb key k); reflexivity.
    + cbn [summary_lookup]. rewrite IH.
      destruct (String.eqb k' k) eqn:E'; [|reflexivity].
      apply String.eqb_eq in E' as ->. rewrite String.eqb_sym, E. reflexivity.
Qed.

Lemma lookup_fold_groups (k : string) (ts : list transition_entry)
    (by_edge : list (string * list (gmap string pyval))) :
  summary_lookup k
    (fold_left
       (λ by_edge t,
          setdefault_append (edge_key (t_from t) (t_to t)) (t_metrics t) by_edge)
       ts by_edge)
  = match map t_metrics (filter (λ t, edge_key (t_from t) (t_to t) = k) ts) with
    | [] => summary_lookup k by_edge
    | g => Some (default [] (summary_lookup k by_edge) ++ g)
    end.
Proof.
  revert by_edge. induction ts as [|t ts IH]; intros by_edge; [reflexivity|].
  cbn [fold_left]. rewrite IH, lookup_setdefault_append, filter_cons.
  destruct (decide (edge_key (t_from t) (t_to t) = k)) as [E|E].
  - rewrite E, String.eqb_refl. cbn [map].
    destruct (map t_metrics _) as [|m' g']; simpl.
    + reflexivity.
    + rewrite <- app_assoc. reflexivity.
  - apply String.eqb_neq in E. rewrite E. reflexivity.
Qed.

Lemma group_by_edge_lookup (k : string) (transition_rounds : list round_entry) :
  summary_lookup k (group_by_edge transition_rounds)
  = match edge_group k transition_rounds with
    | [] => None
    | g => Some g
    end.
Proof.
  unfold group_by_edge, edge_group. rewrite lookup_fold_groups. reflexivity.
Qed.

(** Every group is non-empty and holds measurements that were recorded. *)
Lemma setdefault_append_groups (P : gmap string pyval → Prop) (key : string)
    (m : gmap string pyval) (by_edge : list (string * list (gmap string pyval))) :
  P m →
  Forall (λ kg, kg.2 ≠ [] ∧ Forall P kg.2) by_edge →
  Forall (λ kg, kg.2 ≠ [] ∧ Forall P kg.2) (setdefault_append key m by_edge).
Proof.
  intros Hm. induction 1 as [|[k l] rest [Hne Hl] Hrest IH]; cbn [setdefault_append].
  - repeat constructor; [discriminate | exact Hm].
  - destruct (String.eqb k key).
    + constructor; [|exact Hrest]. simpl. split.
      * destruct l; discriminate.
      * apply Forall_app. split; [exact Hl | repeat constructor; exact Hm].
    + constructor; [split; assumption | exact IH].
Qed.

Lemma fold_groups (P : gmap string pyval → Prop) (ts : list transition_entry)
    (by_edge : list (string * list (gmap string pyval))) :
  Forall (λ t, P (t_metrics t)) ts →
  Forall (λ kg, kg.2 ≠ [] ∧ Forall P kg.2) by_edge →
  Forall (λ kg, kg.2 ≠ [] ∧ Forall P kg.2)
    (fold_left
       (λ by_edge t,
          setdefault_append (edge_key (t_from t) (t_to t)) (t_metrics t) by_edge)
       ts by_edge).
Proof.
  intros Hts. revert by_edge. induction Hts as [|t ts Ht _ IH]; intros by_edge Hbe.
  - exact Hbe.
  - cbn [fold_left]. apply IH, setdefault_append_groups; assumption.
Qed.

Lemma setdefault_append_keys (key : string) (m : gmap string pyval)
    (by_edge : list (string * list (gmap string pyval))) :
  NoDup by_edge.*1 → NoDup (setdefault_append key m by_edge).*1
  ∧ ∀ k, k ∈ (setdefault_append key m by_edge).*1 ↔ k = key ∨ k ∈ by_edge.*1.
Proof.
  induction by_edge as [|[k' l] rest IH]; cbn [setdefault_append]; intros Hnd.
  - split; [repeat constructor; set_solver | set_solver].
  - apply NoDup_cons in Hnd as [Hk' Hnd]. destruct (String.eqb k' key) eqn:E.
    + apply String.eqb_eq in E as ->. split.
      * apply NoDup_cons. split; assumption.
      * intros k. cbn [fmap list_fmap fst]. rewrite !elem_of_cons. tauto.
    + apply String.eqb_neq in E. destruct (IH Hnd) as [IH1 IH2]. split.
      * cbn [fmap list_fmap fst]. apply NoDup_cons. split; [|exact IH1].
        intros Hin. apply IH2 in Hin as [->|Hin]; [congruence | contradiction].
      * intros k. cbn [fmap list_fmap fst]. rewrite !elem_of_cons, IH2. tauto.
Qed.

Lemma fold_groups_keys (ts : list transition_entry)
    (by_edge : list (string * list (gmap string pyval))) :
  NoDup by_edge.*1 →
  NoDup (fold_left
           (λ by_edge t,
              setdefault_append (edge_key (t_from t) (t_to t)) (t_metrics t) by_edge)
           ts by_edge).*1.
Proof.
  revert by_edge. induction ts as [|t ts IH]; intros by_edge Hnd; [exact Hnd|].
  cbn [fold_left]. apply IH, setdefault_append_keys, Hnd.
Qed.

Lemma summarize_edges_numeric (by_edge : list (string * list (gmap string pyval))) :
  Forall (λ kg, kg.2 ≠ [] ∧ Forall (λ m, numeric_metrics m = true) kg.2) by_edge →
  summarize_edges by_edge
  = Ok (map (λ kg, (kg.1, expected_edge_summary kg.2)) by_edge).
Proof.
  induction 1 as [|[k g] rest [Hne Hty] _ IH]; [reflexivity|].
  cbn [summarize_edges]. rewrite summarize_edge_numeric, IH; [reflexivity | exact Hne |].
  intros m Hm. simpl in Hty. rewrite Forall_forall in Hty. apply Hty, Hm.
Qed.

Lemma summary_lookup_map {A B} (f : A → B) (k : string) (l : list (string * A)) :
  summary_lookup k (map (λ kv, (kv.1, f kv.2)) l) = f <$> summary_lookup k l.
Proof.
  induction l as [|[k' v] rest IH]; [reflexivity|].
  cbn [map summary_lookup fst snd]. destruct (String.eqb k' k); [reflexivity | exact IH].
Qed.

Lemma summary_keys_map {A B} (f : A → B) (l : list (string * A)) :
  (map (λ kv, (kv.1, f kv.2)) l).*1 = l.*1.
Proof.
  induction l as [|[k' v] rest IH]; [reflexivity|].
  cbn [map fmap list_fmap fst]. f_equal. exact IH.
Qed.




(** Two measurements of one edge and one of another give exactly two
    groups, with 2 and 1 samples. *)
Example two_edges_two_groups :
  ∃ summary a b,
    aggregate_transitions rounds_two_edges = Ok summary
    ∧ summary.*1 = ["/signin->/signup"; "/signup->/signin"]%string
    ∧ summary_lookup "/signin->/signup" summary = Some a ∧ samples a = 2%nat
    ∧ summary_lookup "/signup->/signin" summary = Some b ∧ samples b = 1%nat.
Proof.
  eexists _, _, _. split; [vm_compute; reflexivity|].
  repeat split; vm_compute; reflexivity.
Qed.

(** ** Transition collection *)

Lemma result_dict_numeric (clicked : element) (m : TransitionMeasurement) :
  numeric_metrics (result_dict (TransitionDone clicked m)) = true.
Proof.
  unfold numeric_metrics, result_dict, dict_get. cbn [forallb].
  simplify_map_eq. destruct (navigationDurationMs m); reflexivity.
Qed.

Lemma take_edge_entry (ew : edge_world) (sample_ms timeout_ms : Q)
    (src exp sel : string) (entry : transition_entry) :
  take_edge ew sample_ms timeout_ms (src, exp, sel) = Some (Ok entry) →
  (t_from entry, t_to entry, t_selector entry) = (src, exp, sel)
  ∧ numeric_metrics (t_metrics entry) = true.
Proof.
  unfold take_edge.
  destruct (if String.eqb (path_before ew) src then Ok tt
            else wait_for_route_ready src (source_ready ew)); [|discriminate].
  destruct (TRANSITION_FPS_JS _ _) as [[r|f]|]; try discriminate.
  destruct (py_truthy _) eqn:T; [discriminate|].
  destruct (wait_for_route_ready exp (dest_ready ew)); [|discriminate].
  intros [= <-]. split; [reflexivity|]. simpl t_metrics.
  destruct r as [msg|clicked m]; [|apply result_dict_numeric].
  unfold dict_get, result_dict in T. rewrite lookup_singleton_eq in T.
  reflexivity.
Qed.

Lemma walk_edges_entries (w : nat → edge_world) (sample_ms timeout_ms : Q)
    (edges : list (string * string * string)) (position : nat)
    (entries : list transition_entry) :
  walk_edges w sample_ms timeout_ms edges position = Some (Ok entries) →
  map (λ t, (t_from t, t_to t, t_selector t)) entries = edges
  ∧ Forall (λ t, numeric_metrics (t_metrics t) = true) entries.
Proof.
  revert position entries.
  induction edges as [|[[src exp] sel] rest IH]; intros position entries.
  - intros [= <-]. split; [reflexivity | constructor].
  - cbn [walk_edges].
    destruct (take_edge _ _ _ _) as [[entry|e]|] eqn:T; try discriminate.
    destruct (walk_edges _ _ _ rest _) as [[later|e]|] eqn:W; try discriminate.
    intros [= <-]. destruct (IH _ _ W) as [Hmap Hnum].
    destruct (take_edge_entry _ _ _ _ _ _ _ T) as [Hentry Hty].
    split; [cbn [map]; rewrite Hentry, Hmap; reflexivity|].
    constructor; assumption.
Qed.

Lemma collect_rounds_entries (b : browser) (sample_ms timeout_ms : Q)
    (first count : nat) (rounds : list round_entry) :
  collect_rounds b sample_ms timeout_ms first count = Some (Ok rounds) →
  Forall (λ r, map (λ t, (t_from t, t_to t, t_selector t)) (transitions r)
               = TRANSITIONS
               ∧ Forall (λ t, numeric_metrics (t_metrics t) = true)
                        (transitions r)) rounds.
Proof.
  revert first rounds. induction count as [|count IH]; intros first rounds.
  - intros [= <-]. constructor.
  - cbn [collect_rounds].
    destruct (wait_for_route_ready _ _); [|discriminate].
    destruct (walk_edges _ _ _ _ _) as [[entries|e]|] eqn:W; try discriminate.
    destruct (collect_rounds _ _ _ _ count) as [[later|e]|] eqn:C; try discriminate.
    intros [= <-]. constructor; [|exact (IH _ _ C)].
    exact (walk_edges_entries _ _ _ _ _ _ W).
Qed.

Lemma fold_groups_key_origin (ts : list transition_entry)
    (by_edge : list (string * list (gmap string pyval))) (k : string) :
  NoDup by_edge.*1 →
  k ∈ (fold_left
         (λ by_edge t,
            setdefault_append (edge_key (t_from t) (t_to t)) (t_metrics t) by_edge)
         ts by_edge).*1 →
  k ∈ by_edge.*1 ∨ ∃ t, t ∈ ts ∧ edge_key (t_from t) (t_to t) = k.
Proof.
  revert by_edge. induction ts as [|t ts IH]; intros by_edge Hnd Hk; [left; exact Hk|].
  cbn [fold_left] in Hk.
  destruct (setdefault_append_keys (edge_key (t_from t) (t_to t)) (t_metrics t)
              by_edge Hnd) as [Hnd' Hkeys].
  destruct (IH _ Hnd' Hk) as [Hin|[t' [Ht' Hkey]]].
  - apply Hkeys in Hin as [->|Hin]; [|left; exact Hin].
    right. exists t. split; [left | reflexivity].
  - right. exists t'. split; [right; exact Ht' | exact Hkey].
Qed.

(** C10: every recorded entry carries the configured source and expected
    destination of its edge, whatever path the measurement saw, so the
    transition summary of collected rounds exists and each of its keys is
    one of the four configured edges. *)
Theorem collected_entries_use_configured_edges (b : browser)
    (transition_rounds : nat) (sample_ms timeout_ms : Q)
    (rounds : list round_entry) :
  collect_transition_rounds b transition_rounds sample_ms timeout_ms
  = Some (Ok rounds) →
  (∀ r, r ∈ rounds →
        map (λ t, (t_from t, t_to t, t_selector t)) (transitions r) = TRANSITIONS)
  ∧ ∃ summary,
      aggregate_transitions rounds = Ok summary
      ∧ ∀ key, key ∈ summary.*1 → key ∈ configured_edge_keys.
Proof.
  intros Hc. apply collect_rounds_entries in Hc. rewrite Forall_forall in Hc.
  split; [intros r Hr; apply (Hc r Hr)|].
  assert (∀ t, t ∈ all_transitions rounds →
               numeric_metrics (t_metrics t) = true
               ∧ edge_key (t_from t) (t_to t) ∈ configured_edge_keys) as Hts.
  { intros t Ht. unfold all_transitions in Ht.
    apply list_elem_of_In, in_flat_map in Ht as [r [Hr Ht]].
    apply list_elem_of_In in Hr, Ht. destruct (Hc r Hr) as [Hmap Hnum].
    rewrite Forall_forall in Hnum. split; [apply Hnum, Ht|].
    unfold configured_edge_keys. rewrite <- Hmap, map_map. cbn [fst snd].
    apply list_elem_of_In, in_map_iff. exists t.
    split; [reflexivity | apply list_elem_of_In, Ht]. }
  assert (Forall (λ kg, kg.2 ≠ [] ∧ Forall (λ m, numeric_metrics m = true) kg.2)
            (group_by_edge rounds)) as Hgroups.
  { apply fold_groups; [|constructor]. apply Forall_forall.
    intros t Ht. apply Hts, Ht. }
  exists (map (λ kg, (kg.1, expected_edge_summary kg.2)) (group_by_edge rounds)).
  split; [apply summarize_edges_numeric, Hgroups|].
  intros key. rewrite summary_keys_map. intros Hkey.
  apply fold_groups_key_origin in Hkey as [Hin|[t [Ht <-]]]; [| |constructor].
  - inversion Hin.
  - apply Hts, Ht.
Qed.

(** One round in a browser whose page stays on [/signin]: the first entry
    is recorded as [/signin -> /signup] although its measurement ended on
    [/signin], and the summary has the four configured keys. *)
Lemma collected_entries_use_configured_edges_witness :
  ∃ rounds summary entry,
    collect_transition_rounds stalled_browser 1 1800 5000 = Some (Ok rounds)
    ∧ aggregate_transitions rounds = Ok summary
    ∧ (∀ key, key ∈ summary.*1 → key ∈ configured_edge_keys)
    ∧ flat_map transitions rounds !! 0%nat = Some entry
    ∧ t_to entry = "/signup"%string
    ∧ dict_get (t_metrics entry) "to" = PyStr "/signin"
    ∧ dict_get (t_metrics entry) "reachedExpectedPath" = PyBool false.
Proof.
  assert (∃ rounds, collect_transition_rounds stalled_browser 1 1800 5000
                    = Some (Ok rounds)
                    ∧ ∃ entry, flat_map transitions rounds !! 0%nat = Some entry
                      ∧ t_to entry = "/signup"%string
                      ∧ dict_get (t_metrics entry) "to" = PyStr "/signin"
                      ∧ dict_get (t_metrics entry) "reachedExpectedPath"
                        = PyBool false) as [rounds [Hc [entry He]]].
  { eexists. split; [vm_compute; reflexivity|].
    eexists. split; [vm_compute; reflexivity|]. repeat split. }
  destruct (collected_entries_use_configured_edges _ _ _ _ _ Hc)
    as [_ [summary [Hs Hkeys]]].
  exists rounds, summary, entry. split; [exact Hc|]. split; [exact Hs|].
  split; [exact Hkeys | exact He].
Defined.

(** * Further properties of the code *)

(** ** The frame-rate reduction *)

Lemma toFixed_rounds_to (x : Q) (k : nat) : rounds_to k x (toFixed x k).
Proof.
  unfold rounds_to, toFixed. destruct (Qltb x 0).
  - destruct (nearest_up_nearest (- x) k) as [n [Hn [Hlo Hhi]]].
    exists (- n)%Z. split.
    + rewrite Hn. unfold Qeq. simpl. lia.
    + rewrite inject_Z_opp. apply Qabs_case; intros _; lra.
  - destruct (nearest_up_nearest x k) as [n [Hn [Hlo Hhi]]].
    exists n. split; [exact Hn|]. apply Qabs_case; intros _; lra.
Qed.

Lemma count_over_le_length (threshold : Q) (deltas : list Q) :
  (count_over threshold deltas ≤ length deltas)%nat.
Proof.
  induction deltas as [|d rest IH]; simpl; [lia|].
  destruct (Qltb threshold d); lia.
Qed.

Lemma toFixed_unit_interval (x : Q) (k : nat) :
  0 <= x → x <= 1 → 0 <= toFixed x k ∧ toFixed x k <= 1.
Proof.
  intros H0 H1. unfold toFixed.
  assert (Qltb x 0 = false) as -> by (apply Qltb_ge, H0).
  destruct (nearest_up_nearest x k) as [n [Hn [Hlo Hhi]]].
  set (s := scale10 k) in *.
  assert (0 < inject_Z (Z.pos s)) as Hs by reflexivity.
  assert (0 ≤ n)%Z as Hn0.
  { assert (-(1 # 2) < inject_Z n) as H by nra.
    unfold Qlt in H. simpl in H. lia. }
  assert (n ≤ Z.pos s)%Z as Hns.
  { assert (inject_Z n < inject_Z (Z.pos s + 1)) as H.
    { rewrite inject_Z_plus. change (inject_Z 1) with 1. nra. }
    rewrite <- Zlt_Qlt in H. lia. }
  rewrite Hn. unfold Qle. simpl. split; lia.
Qed.

Lemma count_at_most_perm (v : Q) (l l' : list Q) :
  l ≡ₚ l' → count_at_most v l = count_at_most v l'.
Proof.
  induction 1 as [|x l l' _ IH|x y l|l l' l'' _ IH1 _ IH2]; simpl.
  - reflexivity.
  - rewrite IH. reflexivity.
  - lia.
  - congruence.
Qed.

Lemma sorted_count_at_most (sorted : list Q) (i : nat) (v : Q) :
  StronglySorted Qle sorted → sorted !! i = Some v →
  (i < count_at_most v sorted)%nat.
Proof.
  intros Hs. revert i. induction Hs as [|h t Ht IH Hall]; intros i Hi.
  - discriminate.
  - destruct i as [|i]; simpl in Hi.
    + injection Hi as ->. simpl.
      assert (Qle_bool v v = true) as -> by (apply Qle_bool_iff, Qle_refl). lia.
    + simpl. assert (Qle_bool h v = true) as ->.
      { apply Qle_bool_iff. rewrite Forall_forall in Hall.
        apply Hall, list_elem_of_lookup. eauto. }
      specialize (IH i Hi). lia.
Qed.

Lemma js_sort_strongly_sorted (l : list Q) : StronglySorted Qle (js_sort l).
Proof.
  apply Sorted_StronglySorted; [|apply js_sort_sorted].
  intros x y z. apply Qle_trans.
Qed.

(** X1: whatever timestamps were collected, the reduction returns a sample:
    it never divides by zero and never reads past the sorted deltas; the
    sample counts one frame less than there are timestamps. *)
Theorem frame_reduction_never_faults (stamps : list Q) :
  ∃ s, frame_stats stamps = Ok s
       ∧ totalFrames s = (length stamps - 1)%nat.
Proof.
  destruct (frame_deltas stamps) as [|d rest] eqn:E.
  - exists empty_sample. split; [apply frame_stats_empty, E|].
    rewrite <- frame_deltas_length, E. reflexivity.
  - destruct (frame_stats_nonempty stamps) as [v [_ Hs]]; [rewrite E; discriminate|].
    eexists. split; [exact Hs|]. simpl. apply frame_deltas_length.
Qed.



(** X3: the reported droppedFrameRatio always lies between 0 and 1. *)
Theorem dropped_ratio_in_unit_interval (stamps : list Q) :
  ∃ s, frame_stats stamps = Ok s
       ∧ 0 <= droppedFrameRatio s ∧ droppedFrameRatio s <= 1.
Proof.
  destruct (frame_deltas stamps) as [|d rest] eqn:E.
  - exists empty_sample. split; [apply frame_stats_empty, E|].
    split; discriminate.
  - destruct (frame_stats_nonempty stamps) as [v [_ Hs]]; [rewrite E; discriminate|].
    eexists. split; [exact Hs|]. simpl droppedFrameRatio. rewrite E.
    apply toFixed_unit_interval.
    + apply Qle_shift_div_l; [reflexivity|]. rewrite Qmult_0_l.
      change 0 with (inject_Z 0). rewrite <- Zle_Qle. lia.
    + apply Qle_shift_div_r; [reflexivity|]. rewrite Qmult_1_l.
      rewrite <- Zle_Qle. pose proof (count_over_le_length 24 (d :: rest)). lia.
Qed.

(** X4: the element selected as the 95th percentile is one of the deltas,
    and at least ceil(0.95 * n) of the n deltas are not larger than it. *)
Theorem p95_covers_95_percent (deltas : list Q) :
  deltas ≠ [] →
  ∃ v, p95_raw deltas = Ok v
       ∧ v ∈ deltas
       ∧ (Qceiling (inject_Z (Z.of_nat (length deltas)) * (95 # 100))
          ≤ Z.of_nat (count_at_most v deltas))%Z.
Proof.
  intros Hne. destruct (p95_raw_ok deltas Hne) as [v [Hv Hp]].
  exists v. split; [exact Hp|]. split.
  - rewrite <- (js_sort_perm deltas). apply list_elem_of_lookup. eauto.
  - rewrite <- (count_at_most_perm v _ _ (js_sort_perm deltas)).
    pose proof (sorted_count_at_most _ _ _ (js_sort_strongly_sorted deltas) Hv) as H.
    unfold percentile_index in H. lia.
Qed.

Lemma p95_covers_95_percent_witness :
  ∃ v, p95_raw [5; 20; 10; 15] = Ok v
       ∧ v ∈ [5; 20; 10; 15]
       ∧ (4 ≤ Z.of_nat (count_at_most v [5; 20; 10; 15]%Q))%Z.
Proof.
  destruct (p95_covers_95_percent [5; 20; 10; 15]) as [v [Hp [Hin Hc]]];
    [discriminate|].
  exists v. split; [exact Hp|]. split; [exact Hin | exact Hc].
Defined.

(** X5: the reported avgFps and sampleDurationMs are the unrounded frame
    rate and the window length (last timestamp minus first) rounded to 3
    decimals: a multiple of 0.001 at most 0.0005 away. *)
Theorem reported_rates_are_rounded (stamps : list Q) :
  ∃ s, frame_stats stamps = Ok s
       ∧ rounds_to 3 (fps_value (frame_deltas stamps)) (avgFps s)
       ∧ rounds_to 3 (total_duration stamps) (sampleDurationMs s).
Proof.
  assert (toFixed (sum_deltas (frame_deltas stamps)) 3
          = toFixed (total_duration stamps) 3) as Hdur
    by apply toFixed_proper, sum_deltas_total_duration.
  destruct (frame_deltas stamps) as [|d rest] eqn:E.
  - exists empty_sample. split; [apply frame_stats_empty, E|]. split.
    + change (avgFps empty_sample) with 0. rewrite <- (toFixed_zero 3).
      apply toFixed_rounds_to.
    + change (sampleDurationMs empty_sample) with 0.
      rewrite <- (toFixed_zero 3). change (toFixed 0 3) with
        (toFixed (sum_deltas []) 3). rewrite Hdur. apply toFixed_rounds_to.
  - destruct (frame_stats_nonempty stamps) as [v [_ Hs]]; [rewrite E; discriminate|].
    eexists. split; [exact Hs|]. simpl avgFps. simpl sampleDurationMs.
    rewrite E, Hdur. split; apply toFixed_rounds_to.
Qed.

(** ** The frame-rate sampler's loop *)

Lemma fps_step_resolves_iff (durationMs first : Q) (stamps frames : list Q)
    (r : result js_fault FrameRateSample) :
  fps_step durationMs (Some first) stamps frames = Some r
  ↔ ∃ n ts,
      frames !! n = Some ts
      ∧ durationMs <= ts - first
      ∧ (∀ j t, (j < n)%nat → frames !! j = Some t → t - first < durationMs)
      ∧ r = frame_stats (stamps ++ take (S n) frames).
Proof.
  revert stamps. induction frames as [|ts later IH]; intros stamps.
  - split; [discriminate|]. intros [n [t [H _]]]. discriminate.
  - cbn [fps_step]. destruct (Qle_bool durationMs (ts - first)) eqn:E.
    + apply Qle_bool_iff in E. split.
      * intros [= <-]. exists 0%nat, ts. split; [reflexivity|].
        split; [exact E|]. split; [intros j t Hj; lia | reflexivity].
      * intros [n [t [Hn [Hle [Hearly ->]]]]]. destruct n as [|n]; [reflexivity|].
        exfalso. apply (Qlt_not_le _ _ (Hearly 0%nat ts ltac:(lia) eq_refl)), E.
    + assert (ts - first < durationMs) as Hlt.
      { apply Qnot_le_lt. intros H. apply Qle_bool_iff in H. congruence. }
      rewrite IH. split.
      * intros [n [t [Hn [Hle [Hearly ->]]]]]. exists (S n), t.
        split; [exact Hn|]. split; [exact Hle|]. split.
        -- intros [|j] t' Hj Ht'; [injection Ht' as <-; exact Hlt|].
           apply (Hearly j t'); [lia | exact Ht'].
        -- rewrite <- app_assoc. reflexivity.
      * intros [n [t [Hn [Hle [Hearly ->]]]]]. destruct n as [|n].
        -- injection Hn as ->. exfalso. exact (Qlt_not_le _ _ Hlt Hle).
        -- exists n, t. split; [exact Hn|]. split; [exact Hle|]. split.
           ++ intros j t' Hj Ht'. apply (Hearly (S j) t'); [lia | exact Ht'].
           ++ rewrite <- app_assoc. reflexivity.
Qed.

Lemma last_take_lookup (frames : list Q) (n : nat) (ts : Q) :
  frames !! n = Some ts → List.last (take (S n) frames) 0 = ts.
Proof.
  revert frames. induction n as [|n IH]; intros [|a frames] H; try discriminate.
  - injection H as ->. reflexivity.
  - simpl in H. specialize (IH frames H).
    destruct frames as [|b rest]; [discriminate|].
    change (take (S (S n)) (a :: b :: rest))
      with (a :: take (S n) (b :: rest)).
    change (take (S n) (b :: rest)) with (b :: take n rest) in *.
    exact IH.
Qed.

(** X6: the sampler resolves exactly when some frame arrives at least
    [durationMs] after the first one; it resolves at the first such frame,
    with the reduction of the timestamps up to and including it. *)
Theorem sampler_resolves_at_first_frame_past_budget (durationMs : Q)
    (frames : list Q) (r : result js_fault FrameRateSample) :
  FPS_SAMPLE_JS durationMs frames = Some r
  ↔ ∃ first n ts,
      frames !! 0%nat = Some first
      ∧ frames !! n = Some ts
      ∧ durationMs <= ts - first
      ∧ (∀ j t, (j < n)%nat → frames !! j = Some t → t - first < durationMs)
      ∧ r = frame_stats (take (S n) frames).
Proof.
  unfold FPS_SAMPLE_JS. destruct frames as [|first later].
  - split; [discriminate|]. intros [f [n [t [H _]]]]. discriminate.
  - change (fps_step durationMs None [] (first :: later))
      with (fps_step durationMs (Some first) [] (first :: later)).
    rewrite fps_step_resolves_iff. split.
    + intros [n [t H]]. exists first, n, t. split; [reflexivity | exact H].
    + intros [f [n [t [[= <-] H]]]]. exists n, t. exact H.
Qed.

(** X7: with a positive budget a resolved sample is never the degenerate
    one: it holds at least one inter-frame delta, and its window (last
    timestamp minus first, reported rounded to 3 decimals) is at least
    the budget. *)
Theorem positive_budget_gives_full_window (durationMs : Q) (frames : list Q)
    (r : result js_fault FrameRateSample) :
  0 < durationMs →
  FPS_SAMPLE_JS durationMs frames = Some r →
  ∃ s stamps,
    r = Ok s
    ∧ stamps = take (S (totalFrames s)) frames
    ∧ (1 ≤ totalFrames s)%nat
    ∧ durationMs <= total_duration stamps
    ∧ sampleDurationMs s = toFixed (total_duration stamps) 3.
Proof.
  intros Hpos H. unfold FPS_SAMPLE_JS in H.
  destruct frames as [|first later]; [discriminate|].
  change (fps_step durationMs None [] (first :: later))
    with (fps_step durationMs (Some first) [] (first :: later)) in H.
  apply fps_step_resolves_iff in H as [n [ts [Hn [Hle [_ ->]]]]].
  change ([] ++ take (S n) (first :: later)) with (take (S n) (first :: later)).
  assert ((first :: later) !! 0%nat = Some first) as Hfirst by reflexivity.
  remember (first :: later) as frames eqn:Hframes.
  assert (length (take (S n) frames) = S n) as Hlen.
  { rewrite length_take. apply lookup_lt_Some in Hn. lia. }
  assert (n ≠ 0%nat) as Hn0.
  { intros ->. rewrite Hfirst in Hn. injection Hn as ->. lra. }
  assert (total_duration (take (S n) frames) == ts - first) as Hdur.
  { unfold total_duration. rewrite (last_take_lookup _ _ _ Hn).
    subst frames. reflexivity. }
  destruct (frame_stats_nonempty (take (S n) frames)) as [v [_ Hs]].
  { intros E. apply (f_equal length) in E.
    rewrite frame_deltas_length, Hlen in E. simpl in E. lia. }
  eexists _, (take (S n) frames). split; [exact Hs|].
  simpl totalFrames. simpl sampleDurationMs.
  rewrite frame_deltas_length, Hlen.
  replace (S n - 1)%nat with n by lia.
  split; [reflexivity|]. split; [lia|]. split; [rewrite Hdur; exact Hle|].
  apply toFixed_proper, sum_deltas_total_duration.
Qed.

Lemma positive_budget_gives_full_window_witness :
  ∃ s, FPS_SAMPLE_JS 10 [7; 8; 16; 17; 20] = Some (Ok s)
       ∧ totalFrames s = 3%nat
       ∧ sampleDurationMs s = 10.
Proof.
  destruct (positive_budget_gives_full_window 10 [7; 8; 16; 17; 20]
              (frame_stats [7; 8; 16; 17]))
    as [s [stamps [Hs [Hst [Hn [Hd Hr]]]]]]; [reflexivity | reflexivity |].
  exists s. split; [rewrite <- Hs; reflexivity|].
  vm_compute in Hs. injection Hs as <-. split; reflexivity.
Defined.

(** ** The transition sampler *)

Lemma find_first_split {A} (f : A → bool) (l : list A) (x : A) :
  List.find f l = Some x →
  f x = true
  ∧ ∃ before after, l = before ++ x :: after ∧ ∀ e, e ∈ before → f e = false.
Proof.
  induction l as [|h t IH]; [discriminate|]. simpl.
  destruct (f h) eqn:E.
  - intros [= <-]. split; [exact E|]. exists [], t. split; [reflexivity|].
    intros e He. inversion He.
  - intros H. destruct (IH H) as [Hx [before [after [-> Hb]]]].
    split; [exact Hx|]. exists (h :: before), after. split; [reflexivity|].
    intros e He. apply elem_of_cons in He as [->|He]; [exact E | apply Hb, He].
Qed.

Lemma transition_done_target (args : transition_args) (page : page_trace)
    (clicked : element) (m : TransitionMeasurement) :
  TRANSITION_FPS_JS args page = Some (Ok (TransitionDone clicked m)) →
  transition_target (querySelectorAll page (selector args)) = Some clicked.
Proof.
  unfold TRANSITION_FPS_JS.
  destruct (transition_target _) as [target|]; [|discriminate].
  destruct (wait_for_path _ _ _); [|discriminate].
  destruct (frame_stats _); simpl; [|discriminate].
  intros [= <- _]. reflexivity.
Qed.

(** X8: when some element matching the selector is visible, the element
    that is clicked is visible and is the first visible one in document
    order: every match before it is not visible. *)
Theorem first_visible_match_is_clicked (args : transition_args)
    (page : page_trace) (clicked : element) (m : TransitionMeasurement) :
  TRANSITION_FPS_JS args page = Some (Ok (TransitionDone clicked m)) →
  (∃ e, e ∈ querySelectorAll page (selector args) ∧ isVisible (Some e) = true) →
  isVisible (Some clicked) = true
  ∧ ∃ before after,
      querySelectorAll page (selector args) = before ++ clicked :: after
      ∧ ∀ e, e ∈ before → isVisible (Some e) = false.
Proof.
  intros H [e [Hin Hvis]]. apply transition_done_target in H.
  unfold transition_target in H.
  destruct (List.find _ _) as [x|] eqn:F.
  - injection H as ->. exact (find_first_split _ _ _ F).
  - apply list_elem_of_In in Hin.
    pose proof (find_none _ _ F e Hin) as Hno. cbv beta in Hno. congruence.
Qed.

Lemma first_visible_match_is_clicked_witness :
  ∃ m, TRANSITION_FPS_JS signup_args two_links_page
       = Some (Ok (TransitionDone signup_link m))
       ∧ isVisible (Some signup_link) = true
       ∧ isVisible (Some hidden_link) = false.
Proof.
  assert (∃ m, TRANSITION_FPS_JS signup_args two_links_page
               = Some (Ok (TransitionDone signup_link m))) as [m Hm].
  { eexists. vm_compute. reflexivity. }
  exists m. split; [exact Hm|].
  destruct (first_visible_match_is_clicked _ _ _ _ Hm) as [Hvis _].
  - exists signup_link. split; [right; left | reflexivity].
  - split; [exact Hvis | reflexivity].
Defined.

(** X9: once an element matches the selector and some poll finds the
    deadline passed, the sampler returns a measurement: it clicked one of
    the matches, [from] and [to] are the paths before the click and at the
    end, reachedExpectedPath tells whether [to] is the expected path, and
    the frame fields are the reduction of the captured timestamps. *)
Theorem polling_ends_at_the_deadline (args : transition_args) (page : page_trace) :
  querySelectorAll page (selector args) ≠ [] →
  (∃ p, p ∈ polls page ∧ navStart page + timeoutMs args <= poll_clock p) →
  ∃ clicked m,
    TRANSITION_FPS_JS args page = Some (Ok (TransitionDone clicked m))
    ∧ clicked ∈ querySelectorAll page (selector args)
    ∧ m_from m = startPath page
    ∧ m_to m = finalPath page
    ∧ (reachedExpectedPath m = true ↔ finalPath page = expectedPath args)
    ∧ Ok (m_sample m) = frame_stats (frameStamps page).
Proof.
  intros Hne Hlate. unfold TRANSITION_FPS_JS.
  destruct (transition_target _) as [target|] eqn:T.
  2:{ apply transition_target_none in T. contradiction. }
  destruct (wait_for_path_settles _ (expectedPath args) _ Hlate) as [navEnd ->].
  destruct (frame_stats_total (frameStamps page)) as [sample ->].
  eexists _, _. split; [reflexivity|]. split.
  - unfold transition_target in T.
    destruct (List.find _ _) as [x|] eqn:F.
    + injection T as <-. apply find_some in F as [F _].
      apply list_elem_of_In, F.
    + destruct (querySelectorAll page (selector args)); [discriminate|].
      injection T as <-. left.
  - simpl. repeat split; try reflexivity; apply String.eqb_eq.
Qed.

Lemma polling_ends_at_the_deadline_witness :
  ∃ clicked m,
    TRANSITION_FPS_JS signup_args late_page
    = Some (Ok (TransitionDone clicked m))
    ∧ navigationDurationMs m = None
    ∧ reachedExpectedPath m = true.
Proof.
  destruct (polling_ends_at_the_deadline signup_args late_page)
    as [clicked [m [Hm [_ [_ [_ [Hreach _]]]]]]].
  - discriminate.
  - eexists. split; [right; right; left|]. vm_compute. discriminate.
  - exists clicked, m. split; [exact Hm|].
    split; [|apply Hreach; reflexivity].
    vm_compute in Hm. injection Hm as _ <-. reflexivity.
Defined.

(** ** The readiness gate *)

Lemma selector_is_visible_spec (matches : list element) :
  selector_is_visible matches = true
  ↔ ∃ e, e ∈ matches ∧ isVisible (Some e) = true.
Proof.
  unfold selector_is_visible. rewrite existsb_exists. split.
  - intros [e [Hin H]]. exists e. split; [apply list_elem_of_In, Hin | exact H].
  - intros [e [Hin H]]. exists e. split; [apply list_elem_of_In, Hin | exact H].
Qed.

(** X10: the visibility test of the readiness wait and the target choice
    of the transition sampler agree: the wait succeeds exactly when some
    polled state has a visible match, and on a state that passes the test
    the sampler clicks a visible element, while on a state that fails it
    any element it clicks is not visible. *)
Theorem readiness_test_agrees_with_target_choice (polled : list (list element))
    (matches : list element) :
  (visible_selector_wait polled = Ok tt
   ↔ ∃ state, state ∈ polled ∧ selector_is_visible state = true)
  ∧ (selector_is_visible matches = true →
     ∃ target, transition_target matches = Some target
               ∧ isVisible (Some target) = true)
  ∧ (selector_is_visible matches = false →
     ∀ target, transition_target matches = Some target →
               isVisible (Some target) = false).
Proof.
  split; [|split].
  - unfold visible_selector_wait.
    destruct (existsb selector_is_visible polled) eqn:E.
    + apply existsb_exists in E as [state [Hin H]]. split; [|reflexivity].
      intros _. exists state. split; [apply list_elem_of_In, Hin | exact H].
    + split; [discriminate|]. intros [state [Hin H]].
      assert (existsb selector_is_visible polled = true) as E'.
      { apply existsb_exists. exists state.
        split; [apply list_elem_of_In, Hin | exact H]. }
      congruence.
  - intros H. apply selector_is_visible_spec in H as [e [Hin Hvis]].
    unfold transition_target.
    destruct (List.find _ matches) as [x|] eqn:F.
    + exists x. split; [reflexivity|]. apply find_some in F as [_ F]. exact F.
    + apply list_elem_of_In in Hin.
      pose proof (find_none _ _ F e Hin) as Hno. cbv beta in Hno. congruence.
  - intros H target Ht.
    destruct (isVisible (Some target)) eqn:V; [|reflexivity].
    assert (selector_is_visible matches = true) as H'; [|congruence].
    apply selector_is_visible_spec. exists target. split; [|exact V].
    unfold transition_target in Ht.
    destruct (List.find _ matches) as [x|] eqn:F.
    + injection Ht as <-. apply find_some in F as [F _]. apply list_elem_of_In, F.
    + destruct matches; [discriminate|]. injection Ht as <-. left.
Qed.

Lemma readiness_test_agrees_with_target_choice_witness :
  visible_selector_wait [[hidden_link]; [hidden_link; signup_link]] = Ok tt
  ∧ transition_target [hidden_link; signup_link] = Some signup_link
  ∧ visible_selector_wait [[hidden_link]; []] = Err TimeoutError.
Proof.
  destruct (readiness_test_agrees_with_target_choice
              [[hidden_link]; [hidden_link; signup_link]]
              [hidden_link; signup_link]) as [Hwait [Hvis _]].
  split; [|split; reflexivity].
  apply Hwait. exists [hidden_link; signup_link].
  split; [right; left | reflexivity].
Defined.

Lemma wait_for_route_ready_marker (route marker : string) (ready : readiness)
    (e : pyexn) :
  AUTH_ROUTE_MARKERS !! route = Some marker →
  wait_for_route_ready route ready = Err e → e = TimeoutError.
Proof.
  unfold wait_for_route_ready. intros ->.
  destruct (path_matches ready); [|congruence].
  destruct (marker_visible ready marker); congruence.
Qed.

Lemma waited_routes_have_markers (route : string) :
  route ∈ waited_routes → is_Some (AUTH_ROUTE_MARKERS !! route).
Proof.
  intros H. apply list_elem_of_In in H. simpl in H.
  repeat (destruct H as [<-|H]; [vm_compute; eauto|]). contradiction.
Qed.

(** X11: waiting for a route first waits for the path and only then looks
    up the route's marker: a path that never matches is a TimeoutError
    even for a route without marker, a route without marker is a KeyError
    once its path matches, and for the entry route and both ends of every
    configured edge the wait never raises KeyError and succeeds exactly
    when the path matches and the route's marker becomes visible. *)
Theorem route_wait_outcomes (route : string) (ready : readiness) :
  (path_matches ready = false →
   wait_for_route_ready route ready = Err TimeoutError)
  ∧ (path_matches ready = true → AUTH_ROUTE_MARKERS !! route = None →
     wait_for_route_ready route ready = Err KeyError)
  ∧ (route ∈ waited_routes →
     wait_for_route_ready route ready ≠ Err KeyError
     ∧ (wait_for_route_ready route ready = Ok tt
        ↔ path_matches ready = true
          ∧ ∃ marker, AUTH_ROUTE_MARKERS !! route = Some marker
                      ∧ marker_visible ready marker = true)).
Proof.
  unfold wait_for_route_ready. split; [|split].
  - intros ->. reflexivity.
  - intros -> ->. reflexivity.
  - intros Hin. destruct (waited_routes_have_markers route Hin) as [marker ->].
    destruct (path_matches ready).
    + destruct (marker_visible ready marker) eqn:V.
      * split; [discriminate|]. split; [eauto|reflexivity].
      * split; [discriminate|]. split; [discriminate|].
        intros [_ [mk [[= <-] H]]]. congruence.
    + split; [discriminate|]. split; [discriminate|]. intros [H _]. discriminate.
Qed.

Lemma route_wait_outcomes_witness :
  wait_for_route_ready "/forgot-password" always_ready = Ok tt
  ∧ wait_for_route_ready "/profile" always_ready = Err KeyError.
Proof.
  destruct (route_wait_outcomes "/forgot-password" always_ready)
    as [_ [_ Hknown]].
  destruct (route_wait_outcomes "/profile" always_ready) as [_ [Hmissing _]].
  split.
  - apply Hknown.
    + apply list_elem_of_In. simpl.
      repeat (first [left; reflexivity | right]).
    + split; [reflexivity|]. eexists. split; [vm_compute|]; reflexivity.
  - apply Hmissing; [reflexivity | vm_compute; reflexivity].
Defined.

(** ** The transition collector *)








Lemma collect_rounds_numbers (b : browser) (sample_ms timeout_ms : Q)
    (first count : nat) (rounds : list round_entry) :
  collect_rounds b sample_ms timeout_ms first count = Some (Ok rounds) →
  map round rounds = seq first count.
Proof.
  revert first rounds. induction count as [|count IH]; intros first rounds.
  - intros [= <-]. reflexivity.
  - cbn [collect_rounds].
    destruct (wait_for_route_ready _ _); [|discriminate].
    destruct (walk_edges _ _ _ _ _) as [[entries|e]|]; try discriminate.
    destruct (collect_rounds _ _ _ _ count) as [[later|e]|] eqn:C; try discriminate.
    intros [= <-]. cbn [map seq round]. f_equal. exact (IH _ _ C).
Qed.



Lemma collect_rounds_app (b : browser) (sample_ms timeout_ms : Q)
    (first done more : nat) :
  collect_rounds b sample_ms timeout_ms first (done + more)
  = match collect_rounds b sample_ms timeout_ms first done with
    | Some (Ok earlier) =>
        match collect_rounds b sample_ms timeout_ms (first + done) more with
        | Some (Ok later) => Some (Ok (earlier ++ later))
        | other => other
        end
    | other => other
    end.
Proof.
  revert first. induction done as [|done IH]; intros first.
  - cbn [collect_rounds Nat.add]. rewrite Nat.add_0_r.
    destruct (collect_rounds _ _ _ first more) as [[later|e]|]; reflexivity.
  - cbn [collect_rounds Nat.add].
    destruct (wait_for_route_ready _ _); [|reflexivity].
    destruct (walk_edges _ _ _ _ _) as [[entries|e]|]; try reflexivity.
    rewrite IH. replace (first + S done)%nat with (S first + done)%nat by lia.
    destruct (collect_rounds _ _ _ (S first) done) as [[earlier|e]|];
      try reflexivity.
    destruct (collect_rounds _ _ _ (S first + done) more) as [[later|e]|];
      reflexivity.
Qed.

(** X14: the first round that raises ends the collection: when the rounds
    before it succeed and it raises, the collection raises the same
    exception however many rounds were requested after it, and nothing
    of the earlier rounds is returned. *)
Theorem first_failing_round_aborts (b : browser) (sample_ms timeout_ms : Q)
    (done more : nat) (earlier : list round_entry) (e : pyexn) :
  collect_transition_rounds b done sample_ms timeout_ms = Some (Ok earlier) →
  collect_rounds b sample_ms timeout_ms (S done) 1 = Some (Err e) →
  collect_transition_rounds b (done + S more) sample_ms timeout_ms
  = Some (Err e).
Proof.
  unfold collect_transition_rounds. intros Hdone Hfail.
  rewrite collect_rounds_app, Hdone.
  change (S more) with (1 + more)%nat.
  rewrite collect_rounds_app. change (1 + done)%nat with (S done).
  rewrite Hfail. reflexivity.
Qed.

Lemma first_failing_round_aborts_witness :
  collect_transition_rounds second_round_blank_browser 5 1800 5000
  = Some (Err (RuntimeError (PyStr (no_target_message (link_to "/signup"))))).
Proof.
  assert (∃ earlier, collect_transition_rounds second_round_blank_browser 1
                       1800 5000 = Some (Ok earlier)) as [earlier H].
  { eexists. vm_compute. reflexivity. }
  apply (first_failing_round_aborts second_round_blank_browser 1800 5000 1 3
           earlier _ H).
  vm_compute. reflexivity.
Defined.

(** ** Startup aggregation *)

Lemma summarize_lookup (fields : list string)
    (stat : string → result pyexn (option pyfloat))
    (value : string → option pyfloat)
    (summary : gmap string (option pyfloat)) :
  (∀ f, f ∈ fields → stat f = Ok (value f)) →
  ∃ m, summarize fields stat summary = Ok m
       ∧ ∀ k, m !! k = if bool_decide (k ∈ fields) then Some (value k)
                       else summary !! k.
Proof.
  revert summary. induction fields as [|f rest IH]; intros summary Hstat.
  - exists summary. split; [reflexivity|]. intros k. reflexivity.
  - cbn [summarize]. rewrite (Hstat f) by left.
    cbn [mbind result_mbind result_bind].
    destruct (IH (<[f := value f]> summary)) as [m [Hm Hlook]].
    { intros f' Hf'. apply Hstat. right. exact Hf'. }
    exists m. split; [exact Hm|]. intros k. rewrite Hlook.
    destruct (bool_decide (k ∈ rest)) eqn:Er.
    + apply bool_decide_eq_true in Er.
      rewrite bool_decide_eq_true_2 by (right; exact Er). reflexivity.
    + apply bool_decide_eq_false in Er.
      destruct (decide (k = f)) as [->|Hne].
      * rewrite lookup_insert_eq, bool_decide_eq_true_2 by left. reflexivity.
      * rewrite lookup_insert_ne by congruence.
        rewrite bool_decide_eq_false_2; [reflexivity|].
        intros Hin. apply elem_of_cons in Hin as [?|?]; contradiction.
Qed.

Lemma empty_dict_lookup (m : gmap string pyval) (field : string) :
  Nat.eqb (size m) 0 = true → m !! field = None.
Proof.
  intros H. apply Nat.eqb_eq, map_size_empty_iff in H. subst m.
  apply lookup_empty.
Qed.

Lemma nav_vals_numbers (field : string) (startup_runs : list startup_run) :
  (∀ r, r ∈ startup_runs → number_if_present (navigation r) field = true) →
  Forall (λ v, is_Some (as_number v)) (nav_vals field startup_runs)
  ∧ omap as_number (nav_vals field startup_runs)
    = present_numbers navigation field startup_runs.
Proof.
  unfold nav_vals, present_numbers.
  induction startup_runs as [|r rest IH]; intros Hty;
    [split; [constructor | reflexivity]|].
  destruct IH as [IH1 IH2]; [intros r' Hr'; apply Hty; right; exact Hr'|].
  pose proof (Hty r ltac:(left)) as Hr. unfold number_if_present in Hr.
  cbn [omap list_omap].
  destruct (navigation r) as [nav|].
  2:{ change (dict_truthy None) with false. cbv iota. split; assumption. }
  cbn [mbind option_bind] in *.
  destruct (dict_truthy (Some nav)) eqn:Et.
  - destruct (nav !! field) as [v|] eqn:Ef.
    + apply bool_decide_eq_true in Hr. destruct Hr as [x Hx].
      assert (as_number (dict_get nav field) = Some x) as ->.
      { unfold dict_get. rewrite Ef. exact Hx. }
      rewrite (numbers_cons v x _ Hx), IH2.
      split; [constructor; eauto | reflexivity].
    + assert (as_number (dict_get nav field) = None) as ->.
      { unfold dict_get. rewrite Ef. reflexivity. }
      split; assumption.
  - assert (as_number (dict_get nav field) = None) as ->.
    { unfold dict_get. rewrite empty_dict_lookup; [reflexivity|].
      unfold dict_truthy in Et. apply negb_false_iff, Et. }
    split; assumption.
Qed.

Lemma guarded_vals_numbers (get : startup_run → option (gmap string pyval))
    (field : string) (startup_runs : list startup_run) :
  (∀ r, r ∈ startup_runs → numeric_or_null (opt_dict_get (get r) field) = true) →
  Forall (λ v, is_Some (as_number v))
    (omap (λ r, if dict_truthy (get r) && is_not_None (opt_dict_get (get r) field)
                then Some (opt_dict_get (get r) field) else None) startup_runs)
  ∧ omap as_number
      (omap (λ r, if dict_truthy (get r) && is_not_None (opt_dict_get (get r) field)
                  then Some (opt_dict_get (get r) field) else None) startup_runs)
    = present_numbers get field startup_runs.
Proof.
  unfold present_numbers.
  induction startup_runs as [|r rest IH]; intros Hty;
    [split; [constructor | reflexivity]|].
  destruct IH as [IH1 IH2]; [intros r' Hr'; apply Hty; right; exact Hr'|].
  pose proof (Hty r ltac:(left)) as Hr.
  cbn [omap list_omap].
  destruct (get r) as [d|].
  2:{ change (dict_truthy None) with false. cbn [andb]. cbv iota.
      split; assumption. }
  cbn [opt_dict_get] in *.
  destruct (dict_truthy (Some d)) eqn:Et; cbn [andb].
  - destruct (dict_get d field) as [|b|q|s] eqn:Ev; cbn [is_not_None as_number];
      cbv iota; try (split; assumption); try discriminate.
    + rewrite (numbers_cons (PyBool b) _ _ eq_refl), IH2.
      split; [constructor; eauto | reflexivity].
    + rewrite (numbers_cons (PyNum q) _ _ eq_refl), IH2.
      split; [constructor; eauto | reflexivity].
  - cbv iota.
    assert (as_number (dict_get d field) = None) as ->.
    { unfold dict_get. rewrite empty_dict_lookup; [reflexivity|].
      unfold dict_truthy in Et. apply negb_false_iff, Et. }
    split; assumption.
Qed.

Lemma startup_typed_fields (r : startup_run) :
  startup_typed r = true →
  (∀ f, f ∈ nav_fields → number_if_present (navigation r) f = true)
  ∧ (∀ f, f ∈ paint_fields → numeric_or_null (opt_dict_get (paint r) f) = true)
  ∧ (∀ f, f ∈ fps_fields → numeric_or_null (opt_dict_get (startupFps r) f) = true).
Proof.
  unfold startup_typed. rewrite !andb_true_iff, !forallb_forall.
  intros [[Hn Hp] Hf]. repeat split; intros f Hin;
    [apply Hn | apply Hp | apply Hf]; apply list_elem_of_In, Hin.
Qed.



(** ** Navigation and paint snapshot *)

Lemma timing_dict_field (nav : navigation_timing) (f : string) :
  f ∈ nav_fields → ∃ q, timing_dict nav !! f = Some (PyNum q).
Proof.
  intros H. apply list_elem_of_In in H. simpl in H.
  unfold timing_dict.
  repeat (destruct H as [<-|H]; [simplify_map_eq; eauto|]). contradiction.
Qed.

Lemma paint_fold_absent (paints : list paint_timing) (acc : gmap string pyval)
    (name : string) :
  (∀ p, p ∈ paints → paint_name p ≠ name) →
  fold_left (λ paintMap p,
               <[paint_name p := PyNum (toFixed (startTime p) 3)]> paintMap)
            paints acc !! name
  = acc !! name.
Proof.
  revert acc. induction paints as [|p rest IH]; intros acc H; [reflexivity|].
  cbn [fold_left]. rewrite IH by (intros p' Hp'; apply H; right; exact Hp').
  apply lookup_insert_ne, H. left.
Qed.

Lemma paint_fold_present (paints : list paint_timing) (acc : gmap string pyval)
    (name : string) :
  is_Some (fold_left (λ paintMap p,
                        <[paint_name p := PyNum (toFixed (startTime p) 3)]> paintMap)
                     paints acc !! name)
  ↔ is_Some (acc !! name) ∨ ∃ p, p ∈ paints ∧ paint_name p = name.
Proof.
  revert acc. induction paints as [|p rest IH]; intros acc.
  - cbn [fold_left]. split; [auto|]. intros [H|[p [Hp _]]]; [exact H | inversion Hp].
  - cbn [fold_left]. rewrite IH, lookup_insert_is_Some. split.
    + intros [[Hp|[_ H]]|[p' [Hp' Hn]]].
      * right. exists p. split; [left | exact Hp].
      * left. exact H.
      * right. exists p'. split; [right; exact Hp' | exact Hn].
    + intros [H|[p' [Hp' Hn]]].
      * left. destruct (decide (paint_name p = name)); [left | right]; auto.
      * apply elem_of_cons in Hp' as [->|Hp'].
        -- left. left. exact Hn.
        -- right. exists p'. split; assumption.
Qed.

Lemma paint_fold_numbers (paints : list paint_timing) (acc : gmap string pyval) :
  (∀ k v, acc !! k = Some v → ∃ q, v = PyNum q) →
  ∀ k v,
    fold_left (λ paintMap p,
                 <[paint_name p := PyNum (toFixed (startTime p) 3)]> paintMap)
              paints acc !! k = Some v →
    ∃ q, v = PyNum q.
Proof.
  revert acc. induction paints as [|p rest IH]; intros acc Hacc; [exact Hacc|].
  cbn [fold_left]. apply IH. intros k v.
  destruct (decide (paint_name p = k)) as [->|Hne].
  - rewrite lookup_insert_eq. intros [= <-]. eauto.
  - rewrite lookup_insert_ne by exact Hne. apply Hacc.
Qed.

(** X16: the navigation snapshot never fails.  Its navigation part is null
    exactly when the page has no navigation entry; otherwise every field
    that the startup summary reads is present and holds a number (never
    null).  Its paint part has a key exactly for the names of the page's
    paint entries, and a name that occurs more than once keeps the rounded
    start time of its last entry. *)
Theorem navigation_snapshot_fields (perf : performance) :
  (snap_navigation (NAVIGATION_METRICS_JS perf) = None
   ↔ navigation_entries perf = [])
  ∧ (∀ d f, snap_navigation (NAVIGATION_METRICS_JS perf) = Some d →
            f ∈ nav_fields → ∃ q, d !! f = Some (PyNum q))
  ∧ (∀ name, is_Some (snap_paint (NAVIGATION_METRICS_JS perf) !! name)
             ↔ ∃ p, p ∈ paint_entries perf ∧ paint_name p = name)
  ∧ (∀ before p after,
       paint_entries perf = before ++ p :: after →
       (∀ p', p' ∈ after → paint_name p' ≠ paint_name p) →
       snap_paint (NAVIGATION_METRICS_JS perf) !! paint_name p
       = Some (PyNum (toFixed (startTime p) 3))).
Proof.
  unfold NAVIGATION_METRICS_JS. cbn [snap_navigation snap_paint].
  split; [|split; [|split]].
  - destruct (navigation_entries perf); simpl; split; congruence.
  - intros d f Hd Hf. destruct (navigation_entries perf) as [|nav rest];
      [discriminate|].
    injection Hd as <-. apply timing_dict_field, Hf.
  - intros name. unfold paint_map. rewrite paint_fold_present, lookup_empty.
    split; [|auto]. intros [[x Hx]|H]; [discriminate | exact H].
  - intros before p after -> Hafter. unfold paint_map.
    rewrite fold_left_app. cbn [fold_left].
    rewrite (paint_fold_absent after _ _ Hafter). apply lookup_insert_eq.
Qed.

Lemma navigation_snapshot_fields_witness :
  snap_paint (NAVIGATION_METRICS_JS sample_performance) !! "first-paint"
  = Some (PyNum 91)
  ∧ ∃ d, snap_navigation (NAVIGATION_METRICS_JS sample_performance) = Some d
         ∧ d !! "responseStart" = Some (PyNum (6173 # 500)).
Proof.
  destruct (navigation_snapshot_fields sample_performance) as [_ [_ [_ Hlast]]].
  split.
  - apply (Hlast [ {| paint_name := "first-paint"; startTime := 90 |};
                   {| paint_name := "first-contentful-paint"; startTime := 95 |} ]
                 {| paint_name := "first-paint"; startTime := 91 |} []);
      [reflexivity|].
    intros p' Hp'. inversion Hp'.
  - eexists. split; [reflexivity|]. vm_compute. reflexivity.
Defined.

(** ** The startup collector *)

Lemma startup_field_medians (startup_runs : list startup_run) :
  (∀ r, r ∈ startup_runs → startup_typed r = true) →
  (∀ f, f ∈ nav_fields →
        median_or_None (nav_vals f startup_runs) 3
        = Ok (rounded_stat q_median 3 (present_numbers navigation f startup_runs)))
  ∧ (∀ f, f ∈ paint_fields →
          median_or_None (paint_vals f startup_runs) 3
          = Ok (rounded_stat q_median 3 (present_numbers paint f startup_runs)))
  ∧ (∀ f, f ∈ fps_fields →
          median_or_None (fps_vals f startup_runs)
            (if String.eqb f "droppedFrameRatio" then 4 else 3)
          = Ok (rounded_stat q_median (fps_places f)
                  (present_numbers startupFps f startup_runs))).
Proof.
  intros Hty. split; [|split]; intros f Hf.
  - destruct (nav_vals_numbers f startup_runs) as [Hnum Hmap].
    + intros r Hr. apply (startup_typed_fields r (Hty r Hr)), Hf.
    + rewrite (median_or_None_numbers _ 3 Hnum), Hmap. reflexivity.
  - destruct (guarded_vals_numbers paint f startup_runs) as [Hnum Hmap].
    + intros r Hr. apply (startup_typed_fields r (Hty r Hr)), Hf.
    + unfold paint_vals. rewrite (median_or_None_numbers _ 3 Hnum), Hmap.
      reflexivity.
  - destruct (guarded_vals_numbers startupFps f startup_runs) as [Hnum Hmap].
    + intros r Hr. apply (startup_typed_fields r (Hty r Hr)), Hf.
    + unfold fps_vals. rewrite (median_or_None_numbers _ _ Hnum), Hmap.
      reflexivity.
Qed.

Lemma typed_runs_aggregate (startup_runs : list startup_run) :
  (∀ r, r ∈ startup_runs → startup_typed r = true) →
  ∃ s, aggregate_startup startup_runs = Ok s.
Proof.
  intros Hty. destruct (startup_field_medians startup_runs Hty) as [Hn [Hp Hf]].
  unfold aggregate_startup.
  destruct (summarize_lookup nav_fields _ _ ∅ Hn) as [nav [-> _]].
  destruct (summarize_lookup paint_fields _ _ ∅ Hp) as [pt [-> _]].
  destruct (summarize_lookup fps_fields _ _ ∅ Hf) as [fp [-> _]].
  eexists. reflexivity.
Qed.

Lemma sample_dict_field (s : FrameRateSample) (f : string) :
  f ∈ fps_fields → ∃ q, sample_dict s !! f = Some (PyNum q).
Proof.
  intros H. apply list_elem_of_In in H. simpl in H. unfold sample_dict.
  repeat (destruct H as [<-|H]; [simplify_map_eq; eauto|]). contradiction.
Qed.

Lemma snapshot_run_typed (perf : performance) (s : FrameRateSample)
    (id : nat) (url : string) :
  startup_typed
    {| run := id; route := url;
       navigation := snap_navigation (NAVIGATION_METRICS_JS perf);
       paint := Some (snap_paint (NAVIGATION_METRICS_JS perf));
       startupFps := Some (sample_dict s) |} = true.
Proof.
  unfold startup_typed. cbn [navigation paint startupFps].
  rewrite !andb_true_iff, !forallb_forall. repeat split; intros f Hf.
  - unfold number_if_present, NAVIGATION_METRICS_JS. cbn [snap_navigation].
    destruct (navigation_entries perf) as [|nav rest]; [reflexivity|].
    cbn [head fmap option_fmap option_map mbind option_bind].
    destruct (timing_dict_field nav f) as [q ->]; [apply list_elem_of_In, Hf|].
    apply bool_decide_eq_true. eauto.
  - unfold opt_dict_get, dict_get, NAVIGATION_METRICS_JS. cbn [snap_paint].
    destruct (paint_map (paint_entries perf) !! f) as [v|] eqn:E; [|reflexivity].
    destruct (paint_fold_numbers (paint_entries perf) ∅) with (k := f) (v := v)
      as [q ->]; [intros k v'; rewrite lookup_empty; discriminate | exact E|].
    reflexivity.
  - unfold opt_dict_get, dict_get.
    destruct (sample_dict_field s f) as [q ->]; [apply list_elem_of_In, Hf|].
    reflexivity.
Qed.

Lemma startup_run_of_result (w : startup_world) (id : nat) (ms : Q)
    (o : result pyexn startup_run) :
  startup_run_of w id ms = Some o →
  match o with
  | Ok r => run r = id ∧ startup_typed r = true
  | Err e => e = TimeoutError
  end.
Proof.
  unfold startup_run_of.
  destruct (wait_for_route_ready _ _) as [[]|e] eqn:R.
  - destruct (FPS_SAMPLE_JS ms (startup_frames w)) as [[s|f]|] eqn:F;
      [| |discriminate].
    + intros [= <-]. split; [reflexivity | apply snapshot_run_typed].
    + exfalso. unfold FPS_SAMPLE_JS in F.
      apply fps_step_is_frame_stats in F as [n [_ F]].
      destruct (frame_stats_total ([] ++ take (S n) (startup_frames w)))
        as [s Hs]. congruence.
  - intros [= <-].
    apply (wait_for_route_ready_marker AUTH_ENTRY_ROUTE (link_to "/signup") _ _
             eq_refl R).
Qed.

Lemma collect_startup_result (w : nat → startup_world) (ms : Q)
    (first count : nat) (o : result pyexn (list startup_run)) :
  collect_startup w ms first count = Some o →
  match o with
  | Ok runs => map run runs = seq first count
               ∧ Forall (λ r, startup_typed r = true) runs
  | Err e => e = TimeoutError
  end.
Proof.
  revert first o. induction count as [|count IH]; intros first o.
  - intros [= <-]. split; [reflexivity | constructor].
  - cbn [collect_startup].
    destruct (startup_run_of _ _ _) as [[r|e]|] eqn:S; [| |discriminate].
    + apply startup_run_of_result in S as [Hid Hty].
      destruct (collect_startup _ _ _ count) as [[later|e]|] eqn:C;
        [| |discriminate].
      * intros [= <-]. destruct (IH _ _ C) as [Hnum Hall].
        split; [cbn [map seq]; rewrite Hid, Hnum; reflexivity|].
        constructor; assumption.
      * intros [= <-]. exact (IH _ _ C).
    + intros [= <-]. exact (startup_run_of_result _ _ _ _ S).
Qed.

(** X17: a startup collection that returns holds exactly the requested
    number of runs, numbered 1, 2, ... in order; no navigation field it
    recorded is null, and aggregating the collected runs raises nothing. *)
Theorem collected_startup_runs_aggregate (w : nat → startup_world)
    (startup_runs : nat) (startup_fps_sample_ms : Q) (runs : list startup_run) :
  collect_startup_runs w startup_runs startup_fps_sample_ms = Some (Ok runs) →
  map run runs = seq 1 startup_runs
  ∧ (∀ f, f ∈ nav_fields →
          Forall (λ v, is_not_None v = true) (nav_vals f runs))
  ∧ ∃ s, aggregate_startup runs = Ok s.
Proof.
  intros H. apply collect_startup_result in H as [Hnum Hty].
  rewrite Forall_forall in Hty.
  split; [exact Hnum|]. split; [|apply typed_runs_aggregate, Hty].
  intros f Hf. destruct (nav_vals_numbers f runs) as [Hall _].
  - intros r Hr. apply (startup_typed_fields r (Hty r Hr)), Hf.
  - eapply Forall_impl; [exact Hall|].
    intros v [x Hx]. destruct v; try discriminate; reflexivity.
Qed.

Lemma collected_startup_runs_aggregate_witness :
  ∃ runs s,
    collect_startup_runs (steady_startup sample_performance) 3 30
    = Some (Ok runs)
    ∧ map run runs = [1; 2; 3]%nat
    ∧ aggregate_startup runs = Ok s
    ∧ navigationMsMedian s !! "domComplete" = Some (Some (FFin 200))
    ∧ paintMsMedian s !! "first-paint" = Some (Some (FFin 91)).
Proof.
  assert (∃ runs s,
            collect_startup_runs (steady_startup sample_performance) 3 30
            = Some (Ok runs)
            ∧ aggregate_startup runs = Ok s
            ∧ navigationMsMedian s !! "domComplete" = Some (Some (FFin 200))
            ∧ paintMsMedian s !! "first-paint" = Some (Some (FFin 91)))
    as [runs [s [Hc [Hs Hv]]]].
  { eexists _, _. split; [vm_compute; reflexivity|].
    split; [vm_compute; reflexivity|]. split; vm_compute; reflexivity. }
  exists runs, s. split; [exact Hc|].
  split; [exact (proj1 (collected_startup_runs_aggregate _ _ _ _ Hc))|].
  split; [exact Hs | exact Hv].
Defined.



(** ** Rounding of summary values, continued *)

Lemma Qred_twice (q : Q) : Qred (Qred q) = Qred q.
Proof.
  apply Qred_complete, Qred_correct.
Qed.

Lemma Qred_toFixed (x : Q) (k : nat) : Qred (toFixed x k) = toFixed x k.
Proof.
  unfold toFixed, nearest_up. destruct (Qltb x 0).
  - rewrite Qred_opp, Qred_twice. reflexivity.
  - apply Qred_twice.
Qed.

Lemma round_half_even_integer (y : Q) (n : Z) :
  y == inject_Z n → round_half_even y = n.
Proof.
  intros H. unfold round_half_even.
  assert (Qfloor y = n) as Hfl by (rewrite (Qfloor_comp _ _ H); apply Qfloor_Z).
  rewrite Hfl.
  destruct (Qcompare_spec (y - inject_Z n) (1 # 2)) as [E|E|E];
    [rewrite H in E; exfalso | reflexivity | rewrite H in E; exfalso].
  - assert (inject_Z n - inject_Z n == 0) as E0 by ring.
    rewrite E0 in E. discriminate.
  - assert (inject_Z n - inject_Z n == 0) as E0 by ring.
    rewrite E0 in E. discriminate.
Qed.

Lemma py_round_of_decimal (y : Q) (n : Z) (k : nat) :
  y == n # scale10 k → py_round y (Z.of_nat k) = Qred y.
Proof.
  intros H.
  assert (py_round y (Z.of_nat k)
          = Qred (round_half_even (y * inject_Z (Z.pos (scale10 k))) # scale10 k))
    as ->.
  { unfold py_round. rewrite Nat2Z.id. destruct (Z.of_nat k) eqn:E;
      try reflexivity. lia. }
  rewrite (round_half_even_integer _ n).
  - apply Qred_complete. symmetry. exact H.
  - rewrite H. unfold Qeq. simpl. rewrite ?Pos2Z.inj_mul. ring.
Qed.



(** X20: a value that the page already rounded to [k] decimals passes
    through [safe_round] with [k] places unchanged, and rounding twice
    with the same number of places is the same as rounding once. *)
Theorem safe_round_keeps_rounded_values (x : Q) (k : nat) :
  safe_round (Some (PFloat (FFin (toFixed x k)))) (Z.of_nat k)
  = Some (FFin (toFixed x k))
  ∧ (∀ r, safe_round (Some (PFloat (FFin x))) (Z.of_nat k) = Some r →
          safe_round (Some (PFloat r)) (Z.of_nat k) = Some r).
Proof.
  split.
  - cbn [safe_round isinstance_float math_isnan andb py_float round_float].
    do 2 f_equal. destruct (toFixed_rounds_to x k) as [n [Hn _]].
    rewrite (py_round_of_decimal _ n k Hn). apply Qred_toFixed.
  - intros r H.
    cbn [safe_round isinstance_float math_isnan andb py_float round_float] in H.
    injection H as <-.
    cbn [safe_round isinstance_float math_isnan andb py_float round_float].
    do 2 f_equal.
    rewrite (py_round_of_decimal (py_round x (Z.of_nat k))
               (round_half_even (x * inject_Z (Z.pos (scale10 k)))) k
               (py_round_decimals x k)).
    unfold py_round. destruct (Z.of_nat k); apply Qred_twice.
Qed.

Lemma safe_round_keeps_rounded_values_witness :
  safe_round (Some (PFloat (FFin (toFixed (166667 # 10000) 3)))) 3
  = Some (FFin 16.667).
Proof.
  exact (proj1 (safe_round_keeps_rounded_values (166667 # 10000) 3)).
Defined.

(** ** The base address *)

Lemma rstrip_slash_decomposes (s : string) :
  ∃ n, s = (rstrip_slash s ++ slashes n)%string.
Proof.
  induction s as [|c rest [n IH]]; [exists 0%nat; reflexivity|].
  cbn [rstrip_slash]. destruct (rstrip_slash rest) as [|c' kept] eqn:E.
  - change (rest = slashes n) in IH. destruct (Ascii.eqb c "/") eqn:Ec.
    + apply Ascii.eqb_eq in Ec as ->. exists (S n).
      change (String "/" rest = String "/" (slashes n)). congruence.
    + exists n. change (String c rest = String c (slashes n)). congruence.
  - exists n.
    change (String c rest
            = String c (String.append (String c' kept) (slashes n))).
    congruence.
Qed.

Lemma rstrip_slash_last (s : string) : last_char (rstrip_slash s) ≠ Some "/"%char.
Proof.
  induction s as [|c rest IH]; [discriminate|].
  cbn [rstrip_slash]. destruct (rstrip_slash rest) as [|c' kept] eqn:E.
  - destruct (Ascii.eqb c "/") eqn:Ec; [discriminate|].
    apply Ascii.eqb_neq in Ec. simpl. congruence.
  - exact IH.
Qed.

Lemma rstrip_slash_fixed (s : string) :
  last_char s ≠ Some "/"%char → rstrip_slash s = s.
Proof.
  induction s as [|c rest IH]; [reflexivity|]. intros H.
  cbn [rstrip_slash]. destruct rest as [|c' rest'].
  - simpl in H. cbn [rstrip_slash].
    destruct (Ascii.eqb c "/") eqn:Ec; [|reflexivity].
    apply Ascii.eqb_eq in Ec. congruence.
  - rewrite IH by exact H. reflexivity.
Qed.

(** X21: the base address is used without its trailing slashes: what
    [rstrip("/")] returns does not end in a slash, differs from the
    argument only by slashes removed at the end, and is left unchanged
    when stripped again; an address without trailing slash is unchanged. *)
Theorem base_url_loses_trailing_slashes (base_url : string) :
  last_char (rstrip_slash base_url) ≠ Some "/"%char
  ∧ (∃ n, base_url = (rstrip_slash base_url ++ slashes n)%string)
  ∧ rstrip_slash (rstrip_slash base_url) = rstrip_slash base_url
  ∧ (last_char base_url ≠ Some "/"%char → rstrip_slash base_url = base_url).
Proof.
  split; [apply rstrip_slash_last|]. split; [apply rstrip_slash_decomposes|].
  split; [apply rstrip_slash_fixed, rstrip_slash_last | apply rstrip_slash_fixed].
Qed.

Lemma base_url_loses_trailing_slashes_witness :
  route_url "http://127.0.0.1:5173//" AUTH_ENTRY_ROUTE
  = "http://127.0.0.1:5173/signin"%string
  ∧ rstrip_slash "http://127.0.0.1:5173" = "http://127.0.0.1:5173"%string.
Proof.
  split; [reflexivity|].
  apply (proj2 (proj2 (proj2 (base_url_loses_trailing_slashes
                                "http://127.0.0.1:5173")))).
  vm_compute. discriminate.
Defined.

(** ** Transition aggregation: order of the groups, number of samples *)

Lemma setdefault_append_key_list (key : string) (m : gmap string pyval)
    (by_edge : list (string * list (gmap string pyval))) :
  (setdefault_append key m by_edge).*1
  = if bool_decide (key ∈ by_edge.*1) then by_edge.*1 else by_edge.*1 ++ [key].
Proof.
  induction by_edge as [|[k l] rest IH]; [reflexivity|].
  cbn [setdefault_append]. destruct (String.eqb k key) eqn:E.
  - apply String.eqb_eq in E as ->.
    rewrite bool_decide_eq_true_2 by left. reflexivity.
  - apply String.eqb_neq in E. cbn [fmap list_fmap fst]. rewrite IH.
    destruct (bool_decide (key ∈ rest.*1)) eqn:D.
    + apply bool_decide_eq_true in D.
      rewrite bool_decide_eq_true_2 by (right; exact D). reflexivity.
    + apply bool_decide_eq_false in D.
      rewrite bool_decide_eq_false_2; [reflexivity|].
      intros H. apply elem_of_cons in H as [H|H]; [congruence | contradiction].
Qed.

Lemma filter_keeps_all {A} (P : A → Prop) `{!∀ x, Decision (P x)} (l : list A) :
  (∀ x, x ∈ l → P x) → filter P l = l.
Proof.
  induction l as [|x l IH]; intros Hall; [reflexivity|].
  rewrite filter_cons_True by (apply Hall; left).
  rewrite IH; [reflexivity|]. intros y Hy. apply Hall. right. exact Hy.
Qed.

Lemma filter_drops_all {A} (P : A → Prop) `{!∀ x, Decision (P x)} (l : list A) :
  (∀ x, x ∈ l → ¬ P x) → filter P l = [].
Proof.
  induction l as [|x l IH]; intros Hall; [reflexivity|].
  rewrite filter_cons_False by (apply Hall; left).
  apply IH. intros y Hy. apply Hall. right. exact Hy.
Qed.

Lemma fold_groups_key_list (ts : list transition_entry)
    (by_edge : list (string * list (gmap string pyval))) :
  (fold_left
     (λ by_edge t,
        setdefault_append (edge_key (t_from t) (t_to t)) (t_metrics t) by_edge)
     ts by_edge).*1
  = by_edge.*1
    ++ filter (λ k, k ∉ by_edge.*1)
         (first_occurrences (map (λ t, edge_key (t_from t) (t_to t)) ts)).
Proof.
  revert by_edge. induction ts as [|t ts IH]; intros by_edge.
  - cbn [fold_left map first_occurrences]. rewrite filter_nil, app_nil_r.
    reflexivity.
  - cbn [fold_left map first_occurrences]. rewrite IH, setdefault_append_key_list.
    set (k := edge_key (t_from t) (t_to t)).
    set (X := first_occurrences (map _ ts)).
    destruct (bool_decide (k ∈ by_edge.*1)) eqn:D.
    + apply bool_decide_eq_true in D.
      rewrite filter_cons_False by (intros H; exact (H D)).
      f_equal. symmetry. apply list_filter_filter_l.
      intros x Hx ->. exact (Hx D).
    + apply bool_decide_eq_false in D.
      rewrite (filter_cons_True _ k) by exact D.
      rewrite <- app_assoc. cbn [app]. do 2 f_equal.
      rewrite list_filter_filter. apply list_filter_iff.
      intros x. rewrite elem_of_app, list_elem_of_singleton. tauto.
Qed.

Lemma group_by_edge_key_list (transition_rounds : list round_entry) :
  (group_by_edge transition_rounds).*1
  = first_occurrences (transition_keys transition_rounds).
Proof.
  unfold group_by_edge, transition_keys. rewrite fold_groups_key_list.
  cbn [fmap list_fmap app]. apply filter_keeps_all.
  intros x _ H. inversion H.
Qed.

Lemma summarize_edge_samples (g : list (gmap string pyval)) (s : edge_summary) :
  summarize_edge g = Ok s → samples s = length g.
Proof.
  unfold summarize_edge. intros H.
  repeat match type of H with
         | context [mbind _ ?r] =>
             destruct r; cbn [mbind result_mbind result_bind] in H;
             [|discriminate]
         end.
  injection H as <-. reflexivity.
Qed.

Lemma summarize_edges_shape (by_edge : list (string * list (gmap string pyval)))
    (summary : list (string * edge_summary)) :
  summarize_edges by_edge = Ok summary →
  summary.*1 = by_edge.*1
  ∧ sum_list_with (λ kv, samples kv.2) summary
    = sum_list_with (λ kg, length kg.2) by_edge.
Proof.
  revert summary. induction by_edge as [|[k g] rest IH]; intros summary.
  - intros [= <-]. split; reflexivity.
  - cbn [summarize_edges].
    destruct (summarize_edge g) as [s|e] eqn:S;
      cbn [mbind result_mbind result_bind]; [|discriminate].
    destruct (summarize_edges rest) as [later|e];
      cbn [mbind result_mbind result_bind]; [|discriminate].
    intros [= <-]. destruct (IH later eq_refl) as [Hk Hs].
    cbn [fmap list_fmap fst snd sum_list_with].
    rewrite (summarize_edge_samples g s S), Hs. split; [f_equal; exact Hk|].
    reflexivity.
Qed.

Lemma setdefault_append_total (key : string) (m : gmap string pyval)
    (by_edge : list (string * list (gmap string pyval))) :
  sum_list_with (λ kg, length kg.2) (setdefault_append key m by_edge)
  = S (sum_list_with (λ kg, length kg.2) by_edge).
Proof.
  induction by_edge as [|[k l] rest IH]; [reflexivity|].
  cbn [setdefault_append]. destruct (String.eqb k key);
    cbn [sum_list_with snd].
  - rewrite length_app. simpl. lia.
  - rewrite IH. lia.
Qed.

Lemma fold_groups_total (ts : list transition_entry)
    (by_edge : list (string * list (gmap string pyval))) :
  sum_list_with (λ kg, length kg.2)
    (fold_left
       (λ by_edge t,
          setdefault_append (edge_key (t_from t) (t_to t)) (t_metrics t) by_edge)
       ts by_edge)
  = (length ts + sum_list_with (λ kg, length kg.2) by_edge)%nat.
Proof.
  revert by_edge. induction ts as [|t ts IH]; intros by_edge; [reflexivity|].
  cbn [fold_left]. rewrite IH, setdefault_append_total. simpl. lia.
Qed.

(** X22: when transition aggregation returns, the summary lists each edge
    key once, in the order in which the keys first occur among the
    recorded transitions, and the sample counts of the groups add up to
    the number of recorded transitions: no measurement is lost or counted
    twice. *)
Theorem summary_keeps_order_and_count (transition_rounds : list round_entry)
    (summary : list (string * edge_summary)) :
  aggregate_transitions transition_rounds = Ok summary →
  summary.*1 = first_occurrences (transition_keys transition_rounds)
  ∧ NoDup summary.*1
  ∧ sum_list_with (λ kv, samples kv.2) summary
    = length (all_transitions transition_rounds).
Proof.
  unfold aggregate_transitions. intros H.
  apply summarize_edges_shape in H as [Hk Hs].
  split; [rewrite Hk; apply group_by_edge_key_list|].
  split; [rewrite Hk; apply fold_groups_keys; constructor|].
  rewrite Hs. unfold group_by_edge. rewrite fold_groups_total. simpl. lia.
Qed.

Lemma summary_keeps_order_and_count_witness :
  ∃ summary,
    aggregate_transitions rounds_two_edges = Ok summary
    ∧ summary.*1 = ["/signin->/signup"; "/signup->/signin"]%string
    ∧ sum_list_with (λ kv, samples kv.2) summary = 3%nat.
Proof.
  assert (∃ summary, aggregate_transitions rounds_two_edges = Ok summary)
    as [summary Hs].
  { eexists. vm_compute. reflexivity. }
  exists summary. split; [exact Hs|].
  destruct (summary_keeps_order_and_count _ _ Hs) as [Hk [_ Hc]].
  split; [rewrite Hk; reflexivity | rewrite Hc; reflexivity].
Defined.

Lemma first_occurrences_subset (l : list string) (x : string) :
  x ∈ first_occurrences l → x ∈ l.
Proof.
  induction l as [|k rest IH]; [intros H; inversion H|].
  cbn [first_occurrences]. intros H. apply elem_of_cons in H as [->|H]; [left|].
  right. apply list_elem_of_filter in H as [_ H]. apply IH, H.
Qed.

Lemma first_occurrences_app (l rest : list string) :
  first_occurrences (l ++ rest)
  = first_occurrences l ++ filter (λ k, k ∉ l) (first_occurrences rest).
Proof.
  induction l as [|k l IH].
  - cbn [app first_occurrences]. symmetry. apply filter_keeps_all.
    intros x _ H. inversion H.
  - cbn [app first_occurrences]. rewrite IH, filter_app. f_equal. f_equal.
    rewrite list_filter_filter. apply list_filter_iff.
    intros x. rewrite elem_of_cons. tauto.
Qed.

Lemma filter_map_length {A} (f : A → string) (k : string) (l : list A) :
  length (filter (λ a, f a = k) l) = length (filter (λ x, x = k) (map f l)).
Proof.
  induction l as [|a l IH]; [reflexivity|].
  cbn [map]. rewrite !filter_cons.
  destruct (decide (f a = k)); cbn [length]; rewrite IH; reflexivity.
Qed.

Lemma round_keys (r : round_entry) :
  map (λ t, (t_from t, t_to t, t_selector t)) (transitions r) = TRANSITIONS →
  map (λ t, edge_key (t_from t) (t_to t)) (transitions r) = configured_edge_keys.
Proof.
  intros H. unfold configured_edge_keys. rewrite <- H, map_map. reflexivity.
Qed.

Lemma configured_key_once (k : string) :
  k ∈ configured_edge_keys →
  length (filter (λ x, x = k) configured_edge_keys) = 1%nat.
Proof.
  intros H. apply list_elem_of_In in H. simpl in H.
  repeat (destruct H as [<-|H]; [vm_compute; reflexivity|]). contradiction.
Qed.

Lemma collected_group_size (rounds : list round_entry) (k : string) :
  Forall (λ r, map (λ t, (t_from t, t_to t, t_selector t)) (transitions r)
               = TRANSITIONS
               ∧ Forall (λ t, numeric_metrics (t_metrics t) = true)
                        (transitions r)) rounds →
  k ∈ configured_edge_keys →
  length (edge_group k rounds) = length rounds.
Proof.
  intros Hall Hk. unfold edge_group, all_transitions.
  induction Hall as [|r rest [Hr _] _ IH]; [reflexivity|].
  cbn [flat_map]. rewrite filter_app, map_app, length_app, IH, length_map.
  rewrite (filter_map_length (λ t, edge_key (t_from t) (t_to t))).
  rewrite (round_keys r Hr), (configured_key_once k Hk). reflexivity.
Qed.

Lemma collected_key_order (rounds : list round_entry) :
  Forall (λ r, map (λ t, (t_from t, t_to t, t_selector t)) (transitions r)
               = TRANSITIONS
               ∧ Forall (λ t, numeric_metrics (t_metrics t) = true)
                        (transitions r)) rounds →
  rounds ≠ [] →
  first_occurrences (transition_keys rounds) = configured_edge_keys.
Proof.
  intros Hall Hne.
  assert (∀ rs, Forall (λ r, map (λ t, (t_from t, t_to t, t_selector t))
                               (transitions r) = TRANSITIONS
                             ∧ Forall (λ t, numeric_metrics (t_metrics t) = true)
                                      (transitions r)) rs →
                ∀ x, x ∈ transition_keys rs → x ∈ configured_edge_keys) as Hin.
  { intros rs H. unfold transition_keys, all_transitions.
    induction H as [|r rest [Hr _] _ IH]; intros x Hx; [inversion Hx|].
    cbn [flat_map] in Hx. rewrite map_app, (round_keys r Hr) in Hx.
    apply elem_of_app in Hx as [Hx|Hx]; [exact Hx | apply IH, Hx]. }
  destruct Hall as [|r rest [Hr _] Hrest]; [congruence|].
  unfold transition_keys, all_transitions. cbn [flat_map].
  rewrite map_app, (round_keys r Hr), first_occurrences_app.
  rewrite (filter_drops_all _ (first_occurrences _)).
  - rewrite app_nil_r. reflexivity.
  - intros x Hx Hnot. apply Hnot, (Hin rest Hrest), first_occurrences_subset, Hx.
Qed.

(** X23: when at least one round was requested and the collection
    returns, the transition summary of the collected rounds exists, lists
    exactly the four configured edges in their configured order, and
    every edge has as many samples as rounds were requested. *)
Theorem every_edge_gets_one_sample_per_round (b : browser)
    (transition_rounds : nat) (sample_ms timeout_ms : Q)
    (rounds : list round_entry) :
  collect_transition_rounds b transition_rounds sample_ms timeout_ms
  = Some (Ok rounds) →
  (0 < transition_rounds)%nat →
  ∃ summary,
    aggregate_transitions rounds = Ok summary
    ∧ summary.*1 = configured_edge_keys
    ∧ ∀ key, key ∈ configured_edge_keys →
             ∃ e, summary_lookup key summary = Some e
                  ∧ samples e = transition_rounds.
Proof.
  intros Hc Hpos.
  assert (length rounds = transition_rounds) as Hlen.
  { rewrite <- (length_map round), (collect_rounds_numbers _ _ _ _ _ _ Hc).
    apply length_seq. }
  apply collect_rounds_entries in Hc.
  assert (Forall (λ kg, kg.2 ≠ [] ∧ Forall (λ m, numeric_metrics m = true) kg.2)
            (group_by_edge rounds)) as Hgroups.
  { apply fold_groups; [|constructor]. unfold all_transitions.
    clear Hlen. induction Hc as [|r rest [_ Hr] _ IH]; [constructor|].
    cbn [flat_map]. apply Forall_app. split; assumption. }
  exists (map (λ kg, (kg.1, expected_edge_summary kg.2)) (group_by_edge rounds)).
  split; [apply summarize_edges_numeric, Hgroups|]. split.
  - rewrite summary_keys_map, group_by_edge_key_list.
    apply collected_key_order; [exact Hc|].
    intros ->. simpl in Hlen. lia.
  - intros key Hkey. rewrite summary_lookup_map, group_by_edge_lookup.
    pose proof (collected_group_size rounds key Hc Hkey) as Hsize.
    destruct (edge_group key rounds) as [|m g] eqn:E.
    + simpl in Hsize. lia.
    + eexists. split; [reflexivity|].
      unfold expected_edge_summary. cbn [samples]. lia.
Qed.

Lemma every_edge_gets_one_sample_per_round_witness :
  ∃ rounds summary e,
    collect_transition_rounds stalled_browser 2 1800 5000 = Some (Ok rounds)
    ∧ aggregate_transitions rounds = Ok summary
    ∧ summary.*1 = ["/signin->/signup"; "/signup->/signin";
                    "/signin->/forgot-password"; "/forgot-password->/signin"]%string
    ∧ summary_lookup "/signin->/forgot-password" summary = Some e
    ∧ samples e = 2%nat.
Proof.
  assert (∃ rounds, collect_transition_rounds stalled_browser 2 1800 5000
                    = Some (Ok rounds)) as [rounds Hc].
  { eexists. vm_compute. reflexivity. }
  destruct (every_edge_gets_one_sample_per_round _ _ _ _ _ Hc)
    as [summary [Hs [Hk Hsamples]]]; [lia|].
  destruct (Hsamples "/signin->/forgot-password"%string) as [e [He Hn]].
  { apply list_elem_of_In. simpl. tauto. }
  exists rounds, summary, e. split; [exact Hc|]. split; [exact Hs|].
  split; [rewrite Hk; reflexivity|]. split; [exact He | exact Hn].
Defined.

(** ** Transition aggregation: the reach rate *)

Lemma summarize_edges_lookup (by_edge : list (string * list (gmap string pyval)))
    (summary : list (string * edge_summary)) (key : string) (e : edge_summary) :
  summarize_edges by_edge = Ok summary →
  summary_lookup key summary = Some e →
  ∃ g, summary_lookup key by_edge = Some g ∧ summarize_edge g = Ok e.
Proof.
  revert summary. induction by_edge as [|[k g] rest IH]; intros summary.
  - intros [= <-]. discriminate.
  - cbn [summarize_edges].
    destruct (summarize_edge g) as [s|x] eqn:S;
      cbn [mbind result_mbind result_bind]; [|discriminate].
    destruct (summarize_edges rest) as [later|x];
      cbn [mbind result_mbind result_bind]; [|discriminate].
    intros [= <-]. cbn [summary_lookup].
    destruct (String.eqb k key).
    + intros [= <-]. exists g. split; [reflexivity | exact S].
    + apply IH. reflexivity.
Qed.

Lemma summarize_edge_reach (g : list (gmap string pyval)) (s : edge_summary) :
  summarize_edge g = Ok s →
  g ≠ []
  ∧ expectedPathReachRate s
    = Some (FFin (py_round (q_mean (reach_indicator g)) 4)).
Proof.
  intros H.
  assert (g ≠ []) as Hne.
  { intros ->. discriminate. }
  split; [exact Hne|]. unfold summarize_edge in H.
  destruct (reach_flags_numbers g) as [Hnum Hmap].
  rewrite (mean_numbers _ Hnum), Hmap in H.
  2:{ destruct g; [congruence | discriminate]. }
  cbn [mbind result_mbind result_bind] in H.
  repeat match type of H with
         | context [mbind _ (mean_or_None ?a ?b)] =>
             destruct (mean_or_None a b);
             cbn [mbind result_mbind result_bind] in H; [|discriminate]
         | context [mbind _ (median_or_None ?a ?b)] =>
             destruct (median_or_None a b);
             cbn [mbind result_mbind result_bind] in H; [|discriminate]
         end.
  cbn [safe_round_value safe_round isinstance_float math_isnan andb
       py_float round_float mbind result_mbind result_bind] in H.
  injection H as <-. reflexivity.
Qed.

Lemma reach_indicator_sum (g : list (gmap string pyval)) :
  0 <= q_sum (reach_indicator g)
  ∧ q_sum (reach_indicator g) <= inject_Z (Z.of_nat (length g)).
Proof.
  induction g as [|m g [IH0 IH1]]; [split; discriminate|].
  cbn [reach_indicator map q_sum fold_right length].
  fold (reach_indicator g). fold (q_sum (reach_indicator g)).
  rewrite Nat2Z.inj_succ, <- Z.add_1_l, inject_Z_plus.
  change (inject_Z 1) with 1.
  destruct (py_truthy _); split; lra.
Qed.

Lemma py_round_unit_interval (x : Q) (k : nat) :
  0 <= x → x <= 1 →
  0 <= py_round x (Z.of_nat k) ∧ py_round x (Z.of_nat k) <= 1.
Proof.
  intros H0 H1. rewrite (py_round_decimals x k).
  destruct (round_half_even_nearest (x * inject_Z (Z.pos (scale10 k))))
    as [Hlo [Hhi _]].
  set (n := round_half_even _) in *. set (s := scale10 k) in *.
  assert (0 < inject_Z (Z.pos s)) as Hs by reflexivity.
  assert (0 ≤ n)%Z as Hn0.
  { assert (inject_Z (-1) < inject_Z n) as H.
    { change (inject_Z (-1)) with (-(1)). nra. }
    rewrite <- Zlt_Qlt in H. lia. }
  assert (n ≤ Z.pos s)%Z as Hns.
  { assert (inject_Z n < inject_Z (Z.pos s + 1)) as H.
    { rewrite inject_Z_plus. change (inject_Z 1) with 1. nra. }
    rewrite <- Zlt_Qlt in H. lia. }
  unfold Qle. simpl. split; lia.
Qed.

(** X24: in every summary that transition aggregation returns, each group
    has at least one sample and its expectedPathReachRate is a number
    between 0 and 1, never null. *)
Theorem reach_rate_is_a_fraction (transition_rounds : list round_entry)
    (summary : list (string * edge_summary)) (key : string) (e : edge_summary) :
  aggregate_transitions transition_rounds = Ok summary →
  summary_lookup key summary = Some e →
  (1 ≤ samples e)%nat
  ∧ ∃ r, expectedPathReachRate e = Some (FFin r) ∧ 0 <= r ∧ r <= 1.
Proof.
  unfold aggregate_transitions. intros Hs He.
  destruct (summarize_edges_lookup _ _ _ _ Hs He) as [g [_ Hg]].
  destruct (summarize_edge_reach g e Hg) as [Hne Hreach].
  split.
  - rewrite (summarize_edge_samples g e Hg).
    destruct g; [congruence | simpl; lia].
  - eexists. split; [exact Hreach|].
    apply (py_round_unit_interval _ 4).
    + unfold q_mean. apply Qle_shift_div_l.
      * change 0 with (inject_Z 0). rewrite <- Zlt_Qlt.
        destruct g; [congruence | simpl; lia].
      * rewrite Qmult_0_l. apply reach_indicator_sum.
    + unfold q_mean. apply Qle_shift_div_r.
      * change 0 with (inject_Z 0). rewrite <- Zlt_Qlt.
        destruct g; [congruence | simpl; lia].
      * rewrite Qmult_1_l. unfold reach_indicator at 2. rewrite length_map.
        apply reach_indicator_sum.
Qed.

Lemma reach_rate_is_a_fraction_witness :
  ∃ summary e,
    aggregate_transitions rounds_one_of_three = Ok summary
    ∧ summary_lookup "/signin->/signup" summary = Some e
    ∧ (1 ≤ samples e)%nat
    ∧ ∃ r, expectedPathReachRate e = Some (FFin r) ∧ 0 <= r ∧ r <= 1.
Proof.
  assert (∃ summary e,
            aggregate_transitions rounds_one_of_three = Ok summary
            ∧ summary_lookup "/signin->/signup" summary = Some e)
    as [summary [e [Hs He]]].
  { eexists _, _. split; vm_compute; reflexivity. }
  exists summary, e. split; [exact Hs|]. split; [exact He|].
  exact (reach_rate_is_a_fraction _ _ _ _ Hs He).
Defined.

(** ** Startup aggregation: a null navigation field *)

Lemma py_lt_raises (a b : pyval) (e : pyexn) : py_lt a b = Err e → e = TypeError.
Proof.
  unfold py_lt. destruct a, b; simpl; congruence.
Qed.

Lemma py_insert_length (x : pyval) (sorted sorted' : list pyval) :
  py_insert x sorted = Ok sorted' → length sorted' = S (length sorted).
Proof.
  revert sorted'. induction sorted as [|h t IH]; intros sorted'.
  - intros [= <-]. reflexivity.
  - cbn [py_insert]. destruct (py_lt h x) as [[]|];
      cbn [mbind result_mbind result_bind]; [| |discriminate].
    + destruct (py_insert x t) as [t'|]; cbn [mbind result_mbind result_bind];
        [|discriminate].
      intros [= <-]. simpl. rewrite (IH t' eq_refl). reflexivity.
    + intros [= <-]. reflexivity.
Qed.

Lemma py_sorted_length (data sorted : list pyval) :
  py_sorted data = Ok sorted → length sorted = length data.
Proof.
  revert sorted. induction data as [|x t IH]; intros sorted.
  - intros [= <-]. reflexivity.
  - cbn [py_sorted]. destruct (py_sorted t) as [s|];
      cbn [mbind result_mbind result_bind]; [|discriminate].
    intros H. rewrite (py_insert_length _ _ _ H), (IH s eq_refl). reflexivity.
Qed.

Lemma py_insert_raises (x : pyval) (sorted : list pyval) (e : pyexn) :
  py_insert x sorted = Err e → e = TypeError.
Proof.
  induction sorted as [|h t IH]; [discriminate|]. cbn [py_insert].
  destruct (py_lt h x) as [[]|e0] eqn:L; cbn [mbind result_mbind result_bind].
  - destruct (py_insert x t) as [t'|e1]; cbn [mbind result_mbind result_bind];
      [discriminate|].
    intros [= <-]. apply IH. reflexivity.
  - discriminate.
  - intros [= <-]. exact (py_lt_raises _ _ _ L).
Qed.

Lemma py_sorted_raises (data : list pyval) (e : pyexn) :
  py_sorted data = Err e → e = TypeError.
Proof.
  induction data as [|x t IH]; [discriminate|]. cbn [py_sorted].
  destruct (py_sorted t) as [s|e0]; cbn [mbind result_mbind result_bind].
  - apply py_insert_raises.
  - intros [= <-]. apply IH. reflexivity.
Qed.

Lemma py_sorted_none (data sorted : list pyval) :
  py_sorted data = Ok sorted → PyNone ∈ data → (length data ≤ 1)%nat.
Proof.
  revert sorted. induction data as [|x t IH]; intros sorted H Hin;
    [inversion Hin|].
  cbn [py_sorted] in H. destruct (py_sorted t) as [s|] eqn:St;
    cbn [mbind result_mbind result_bind] in H; [|discriminate].
  pose proof (py_sorted_length _ _ St) as Hlen.
  destruct t as [|y t']; [simpl; lia|]. exfalso.
  destruct s as [|h s']; [discriminate|].
  apply elem_of_cons in Hin as [<-|Hin].
  - cbn [py_insert] in H.
    assert (py_lt h PyNone = Err TypeError) as L
      by (unfold py_lt; destruct h; reflexivity).
    rewrite L in H. discriminate.
  - specialize (IH _ eq_refl Hin).
    destruct t' as [|z t'']; [|simpl in IH; lia].
    apply list_elem_of_singleton in Hin as <-.
    cbn [py_sorted py_insert mbind result_mbind result_bind] in St.
    injection St as <- <-. cbn [py_insert] in H.
    assert (py_lt PyNone x = Err TypeError) as L
      by (unfold py_lt; destruct x; reflexivity).
    rewrite L in H. discriminate.
Qed.

Lemma summarize_raises (fields : list string)
    (stat : string → result pyexn (option pyfloat))
    (summary : gmap string (option pyfloat)) (f : string) (e : pyexn) :
  f ∈ fields → stat f = Err e →
  ∃ e', summarize fields stat summary = Err e'.
Proof.
  revert summary. induction fields as [|g rest IH]; intros summary Hin Hf;
    [inversion Hin|].
  cbn [summarize]. destruct (stat g) as [v|e0] eqn:Sg;
    cbn [mbind result_mbind result_bind]; [|eauto].
  apply elem_of_cons in Hin as [->|Hin]; [congruence|].
  apply IH; assumption.
Qed.

(** X25: a navigation field that is None in one run makes startup
    aggregation raise as soon as a second run also carries the field:
    [statistics.median] cannot order None, it raises TypeError, and the
    aggregation returns no summary. *)
Theorem null_navigation_field_raises (startup_runs : list startup_run)
    (field : string) :
  field ∈ nav_fields →
  PyNone ∈ nav_vals field startup_runs →
  (2 ≤ length (nav_vals field startup_runs))%nat →
  median (nav_vals field startup_runs) = Err TypeError
  ∧ ∃ e, aggregate_startup startup_runs = Err e.
Proof.
  intros Hf Hnone Hlen.
  assert (median (nav_vals field startup_runs) = Err TypeError) as Hmed.
  { unfold median. destruct (py_sorted _) as [s|e] eqn:S.
    - pose proof (py_sorted_none _ _ S Hnone). lia.
    - rewrite (py_sorted_raises _ _ S). reflexivity. }
  split; [exact Hmed|].
  destruct (summarize_raises nav_fields
              (λ field, median_or_None (nav_vals field startup_runs) 3)
              ∅ field TypeError Hf) as [e He].
  { unfold median_or_None.
    destruct (nav_vals field startup_runs); [simpl in Hlen; lia|].
    rewrite Hmed. reflexivity. }
  exists e. unfold aggregate_startup. rewrite He. reflexivity.
Qed.

Lemma null_navigation_field_raises_witness :
  median (nav_vals "domComplete" runs_null_domComplete) = Err TypeError
  ∧ ∃ e, aggregate_startup runs_null_domComplete = Err e.
Proof.
  apply (null_navigation_field_raises runs_null_domComplete "domComplete").
  - apply list_elem_of_In. simpl. tauto.
  - apply list_elem_of_In. vm_compute. tauto.
  - vm_compute. lia.
Defined.
